(** * dnd-application: the dice roll state machine and the multiplier overlay

    A shallow embedding of [src/App.tsx] and of the two dice components of
    [src/components/3d/] (the twenty-sided [D20Dice] and the six-sided
    [D6Dice]), with the properties of the specification proved or refuted
    against it.

    JavaScript's [number] is IEEE 754 binary64.  It is modelled by the
    Standard Library's [spec_float] at precision 53 and maximal exponent
    1024, so that products, quotients and comparisons round, overflow and
    treat NaN the way the running program does.

    React state is modelled by records, one per component instance; an event
    handler is a function from the state to the next state together with the
    list of effects it performs on the outside (timers, the call of the
    [onRollComplete] prop, sounds). *)

From Stdlib Require Import ZArith Lia List Bool.
From Stdlib Require Import SpecFloat.
From stdpp Require Import base numbers list strings pretty.

Local Open Scope Z_scope.

(** ** JavaScript numbers *)

Module JS.

Definition prec : Z := 53.
Definition emax : Z := 1024.

Definition number : Type := spec_float.

(** An integer literal: the binary64 value nearest to [z] (exact up to 2^53). *)
Definition num (z : Z) : number := binary_normalize prec emax z 0 false.

Definition mul (x y : number) : number := SFmul prec emax x y.
Definition div (x y : number) : number := SFdiv prec emax x y.
Definition add (x y : number) : number := SFadd prec emax x y.
Definition sub (x y : number) : number := SFsub prec emax x y.
Definition neg (x : number) : number := SFopp x.

(** [x < y], [x > y] and [x === y] on numbers; all are false on NaN. *)
Definition lt (x y : number) : bool := SFltb x y.
Definition gt (x y : number) : bool := SFltb y x.
Definition strict_eq (x y : number) : bool := SFeqb x y.
Definition le (x y : number) : bool := SFleb x y.

(** A decimal literal [n / d] with [d] a power of ten, such as [1.2] or
    [0.45]: numerator and denominator are exact, and the correctly rounded
    quotient is the binary64 value nearest to the decimal. *)
Definition dec (n d : Z) : number := div (num n) (num d).

(** [Math.PI], the binary64 value 0x400921FB54442D18. *)
Definition Math_PI : number := S754_finite false 7074237752028440 (-51).

Definition Math_abs (x : number) : number := SFabs x.

(** [Math.floor]: integers, zeros, infinities and NaN are returned as they
    are; a finite [±m * 2^e] with [e < 0] goes to the integer part rounded
    towards minus infinity, which has less than 53 bits and is exact. *)
Definition Math_floor (x : number) : number :=
  match x with
  | S754_finite s m e =>
      if 0 <=? e then x
      else binary_normalize prec emax (Z.shiftr (cond_Zopp s (Zpos m)) (- e)) 0 false
  | _ => x
  end.

(** Truthiness of a [number | null] value: [null], [0], [-0] and NaN are falsy. *)
Definition truthy (v : option number) : bool :=
  match v with
  | None => false
  | Some (S754_zero _) => false
  | Some S754_nan => false
  | Some _ => true
  end.

(** [v === k] for a [number | null] value [v] and a number [k]. *)
Definition equals (v : option number) (k : number) : bool :=
  match v with
  | Some x => strict_eq x k
  | None => false
  end.

(** [a ?? b] for [number | null | undefined] values. *)
Definition nullish (a b : option number) : option number :=
  match a with
  | Some _ => a
  | None => b
  end.

(** The integer a number denotes, when it denotes one. *)
Definition integer_value (x : number) : option Z :=
  match x with
  | S754_zero _ => Some 0
  | S754_finite s m e =>
      if 0 <=? e then Some (cond_Zopp s (Zpos m * 2 ^ e))
      else if Zpos m mod 2 ^ (- e) =? 0 then Some (cond_Zopp s (Zpos m / 2 ^ (- e)))
      else None
  | _ => None
  end.

(** [a[i]] for an array [a] and a number [i]: the element when [i] is a
    non-negative integer below the length, [undefined] otherwise. *)
Definition array_get {A : Type} (a : list A) (i : number) : option A :=
  match integer_value i with
  | Some k => if 0 <=? k then a !! Z.to_nat k else None
  | None => None
  end.

(** The string of a number inside a template literal.  Integers below 2^53
    in magnitude are exact in binary64 and print as their decimal digits;
    the shortest-digits generation for fractional and larger values is
    outside this development ([None]). *)
Definition Number_toString (x : number) : option string :=
  match x with
  | S754_nan => Some "NaN"
  | S754_infinity false => Some "Infinity"
  | S754_infinity true => Some "-Infinity"
  | _ =>
      match integer_value x with
      | Some k => if Z.abs k <? 2 ^ 53 then Some (pretty k) else None
      | None => None
      end
  end.

End JS.

Declare Scope js_scope.
Delimit Scope js_scope with js.
Notation "x * y" := (JS.mul x y) : js_scope.
Notation "x / y" := (JS.div x y) : js_scope.
Notation "x + y" := (JS.add x y) : js_scope.
Notation "x - y" := (JS.sub x y) : js_scope.
Notation "- x" := (JS.neg x) : js_scope.
Notation "x <? y" := (JS.lt x y) : js_scope.
Notation "x >? y" := (JS.gt x y) : js_scope.
Notation "x <=? y" := (JS.le x y) : js_scope.
Notation "# z" := (JS.num z) (at level 1, format "# z") : js_scope.

(** ** The part of three.js the dice use *)

Module Three.

(** The [x], [y], [z] of a mesh rotation, and of a [[x, y, z]] table entry. *)
Record Euler : Type := euler { x : JS.number; y : JS.number; z : JS.number }.

(** [MathUtils.lerp(x, y, t)] of three.js is [(1 - t) * x + t * y]. *)
Definition lerp (a b t : JS.number) : JS.number :=
  ((#1 - t) * a + t * b)%js.

End Three.

(** ** What a handler does to the outside of its component *)

Inductive effect : Type :=
| SetTimeout (ms : JS.number)
    (* [setTimeout(callback, ms)] with the component's completion callback *)
| OnRollComplete (value : JS.number)
    (* a call of the [onRollComplete] prop *)
| Play (src : string) (currentTime : JS.number) (volume : option JS.number)
    (* [audio.play()] after setting [currentTime] and, when given, [volume] *)
| Throw.
    (* a TypeError from destructuring [undefined] *)

(** What the result [<Text>] of a die renders. *)
Inductive rendering : Type :=
| NoText                      (* the node is not rendered *)
| Text (children : string)
| TextOf (prefix : string) (value : JS.number).
    (* a template literal whose number has no modelled digit string *)

(** A template literal [`prefix${value}`]. *)
Definition template (prefix : string) (value : JS.number) : rendering :=
  match JS.Number_toString value with
  | Some digits => Text (prefix +:+ digits)
  | None => TextOf prefix value
  end.

(** The phases of the specification's roll state machine. *)
Inductive Phase : Type := Idle | Rolling | Settling | Resolved.

(** ** D20Dice.tsx *)

Module D20Dice.

Import Three.

(** Face-up rotations: index 0 is the roll of 1, index 19 the roll of 20. *)
Definition FACE_UP_ROTATIONS : list Euler :=
  [ euler #2 #0 #0;
    euler (JS.dec 12 10) #0 #0;
    euler (- JS.dec 7 10) (- JS.dec 6 10) (- JS.dec 2 10);
    euler #2 (- JS.dec 3 10) (- JS.dec 6 10);
    euler (JS.dec 16 10) (JS.dec 27 10) (- JS.dec 12 10);
    euler (JS.dec 5 10) (- JS.dec 15 10) #0;
    euler #0 (JS.dec 45 100) #0;
    euler (- JS.dec 3 10) (JS.dec 16 10) #0;
    euler (JS.dec 17 10) (JS.dec 8 10) (JS.dec 12 10);
    euler #0 (- JS.dec 27 10) #0;
    euler (- JS.dec 12 10) (JS.dec 314 100) #0;
    euler #2 (JS.dec 3 10) (JS.dec 6 10);
    euler (- JS.dec 12 10) #0 #0;
    euler (JS.dec 7 10) (JS.dec 8 10) #0;
    euler (- JS.dec 3 10) (- JS.dec 16 10) #0;
    euler #0 (- JS.dec 45 100) #0;
    euler (- JS.dec 7 10) (JS.dec 25 10) (JS.dec 2 10);
    euler (- JS.dec 7 10) (JS.dec 6 10) (JS.dec 2 10);
    euler (- JS.dec 7 10) (- JS.dec 25 10) (- JS.dec 2 10);
    euler (JS.dec 8 10) (- JS.dec 8 10) #0 ]%js.

(** The component's [useState] cells and its mesh ref; [meshRef] is [None]
    while [meshRef.current] is null (before mount and after unmount) and
    holds the mesh's rotation otherwise. *)
Record state : Type := mk {
  isRolling : bool;
  rollValue : option JS.number;
  meshRef : option Euler
}.

(** The callback given to [useFrame], at a frame [delta] seconds after the last. *)
Definition useFrame (delta : JS.number) (s : state) : state :=
  match meshRef s with
  | Some r =>
      if isRolling s then
        mk (isRolling s) (rollValue s)
           (Some (euler (x r + delta * #5) (y r + delta * #7) (z r + delta * #3)))%js
      else s
  | None => s
  end.

Definition handleClick (s : state) : state * list effect :=
  if isRolling s then (s, [])
  else (mk true None (meshRef s), [SetTimeout #1500%js]).

(** [Math.floor(Math.random() * 20) + 1], for the value [random] that
    [Math.random()] returns. *)
Definition result (random : JS.number) : JS.number :=
  (JS.Math_floor (random * #20) + #1)%js.

(** The callback given to [setTimeout] by [handleClick]. *)
Definition timeout (random : JS.number) (s : state) : state * list effect :=
  let result := result random in
  match meshRef s with
  | Some _ =>
      let rotationIndex := (result - #1)%js in
      match JS.array_get FACE_UP_ROTATIONS rotationIndex with
      | Some r => (mk false (Some result) (Some r), [])
      | None => (mk false (Some result) (meshRef s), [Throw])
      end
  | None => (mk false (Some result) None, [])
  end.

(** [{rollValue && !isRolling && (<Text>...</Text>)}]. *)
Definition resultText (s : state) : rendering :=
  if JS.truthy (rollValue s) && negb (isRolling s) then
    if JS.equals (rollValue s) #20%js then Text "CRITICAL HIT!"
    else if JS.equals (rollValue s) #1%js then Text "CRITICAL FAIL!"
    else
      match rollValue s with
      | Some v => template "Rolled: " v
      | None => NoText
      end
  else NoText.

(** The [color] of the mesh material. *)
Definition materialColor (s : state) : string :=
  if JS.equals (rollValue s) #20%js then "#00ff00"
  else if JS.equals (rollValue s) #1%js then "#ff0000"
  else "#8b0000".

(** The [color] of the result text. *)
Definition textColor (s : state) : string :=
  if JS.equals (rollValue s) #20%js then "#00ff00"
  else if JS.equals (rollValue s) #1%js then "#ff0000"
  else "#ffffff".

(** The phase of the specification the state cells stand for. *)
Definition phase (s : state) : Phase :=
  if isRolling s then Rolling
  else if JS.truthy (rollValue s) then Resolved
  else Idle.

End D20Dice.

(** ** D6Dice.tsx *)

Module D6Dice.

Import Three.

(** Face-up rotations: index 0 is the roll of 1, index 5 the roll of 6. *)
Definition FACE_UP_ROTATIONS : list Euler :=
  [ euler #0 #0 #0;
    euler #0 (- JS.Math_PI / #2) #0;
    euler (JS.Math_PI / #2) #0 #0;
    euler (- JS.Math_PI / #2) #0 #0;
    euler #0 (JS.Math_PI / #2) #0;
    euler #0 JS.Math_PI #0 ]%js.

Definition ROLL_SOUND_PATH : string := "/sounds/dice-roll.mp3".
Definition SETTLE_SOUND_PATH : string := "/sounds/bell-ding.mp3".

(** The component's [useState] cells and refs.  [rollSound] and
    [settleSound] tell whether the [Audio] element has been created;
    [targetRotation] is [None] when the ref holds [undefined]. *)
Record state : Type := mk {
  isRolling : bool;
  rollValue : option JS.number;
  isSettling : bool;
  targetRotation : option Euler;
  meshRef : option Euler;
  rollSound : bool;
  settleSound : bool
}.

(** [dx < threshold && dy < threshold && dz < threshold] of the settling
    branch, for the rotation [r] and the target [t]. *)
Definition close_enough (r t : Euler) : bool :=
  let threshold := JS.dec 1 10 in
  let dx := JS.Math_abs (x r - x t)%js in
  let dy := JS.Math_abs (y r - y t)%js in
  let dz := JS.Math_abs (z r - z t)%js in
  (dx <? threshold)%js && (dy <? threshold)%js && (dz <? threshold)%js.

(** The callback given to [useFrame]. *)
Definition useFrame (delta : JS.number) (s : state) : state * list effect :=
  match meshRef s with
  | None => (s, [])
  | Some r0 =>
      let r1 :=
        if isRolling s
        then (euler (x r0 + delta * #5) (y r0 + delta * #7) (z r0 + delta * #3))%js
        else r0 in
      if isSettling s then
        match targetRotation s with
        | None =>
            (mk (isRolling s) (rollValue s) (isSettling s) (targetRotation s)
                (Some r1) (rollSound s) (settleSound s), [Throw])
        | Some t =>
            let lerpFactor := (#25 * delta)%js in
            let r2 := euler (lerp (x r1) (x t) lerpFactor)
                            (lerp (y r1) (y t) lerpFactor)
                            (lerp (z r1) (z t) lerpFactor) in
            if close_enough r2 t then
              (mk (isRolling s) (rollValue s) false (targetRotation s)
                  (Some t) (rollSound s) true,
               [Play SETTLE_SOUND_PATH (JS.dec 5 100) (Some (JS.dec 25 100))])
            else
              (mk (isRolling s) (rollValue s) (isSettling s) (targetRotation s)
                  (Some r2) (rollSound s) (settleSound s), [])
        end
      else
        (mk (isRolling s) (rollValue s) (isSettling s) (targetRotation s)
            (Some r1) (rollSound s) (settleSound s), [])
  end.

Definition handleClick (s : state) : state * list effect :=
  if isRolling s then (s, [])
  else
    (mk true None (isSettling s) (targetRotation s) (meshRef s) true (settleSound s),
     [Play ROLL_SOUND_PATH (JS.dec 3 10) None; SetTimeout #1500%js]).

(** [Math.floor(Math.random() * 6) + 1]. *)
Definition result (random : JS.number) : JS.number :=
  (JS.Math_floor (random * #6) + #1)%js.

(** The callback given to [setTimeout] by [handleClick]; [onRollComplete]
    tells whether the optional prop was passed. *)
Definition timeout (onRollComplete : bool) (random : JS.number) (s : state)
  : state * list effect :=
  let result := result random in
  let rotationIndex := (result - #1)%js in
  (mk false (Some result) true (JS.array_get FACE_UP_ROTATIONS rotationIndex)
      (meshRef s) (rollSound s) (settleSound s),
   if onRollComplete then [OnRollComplete result] else []).

(** [{rollValue && !isRolling && (<Text>...</Text>)}], for the optional
    [displayValue] prop ([None] when it is null or not passed). *)
Definition resultText (displayValue : option JS.number) (s : state) : rendering :=
  if JS.truthy (rollValue s) && negb (isRolling s) then
    if JS.equals (rollValue s) #6%js then Text "MAX ROLL!"
    else if JS.equals (rollValue s) #1%js then Text "MIN ROLL!"
    else
      match JS.nullish displayValue (rollValue s) with
      | Some v => template "Rolled: " v
      | None => NoText
      end
  else NoText.

(** The [color] of the mesh material. *)
Definition materialColor (s : state) : string :=
  if JS.equals (rollValue s) #6%js then "#00ff00"
  else if JS.equals (rollValue s) #1%js then "#ff0000"
  else "#8b0000".

(** The phase of the specification the state cells stand for. *)
Definition phase (s : state) : Phase :=
  if isRolling s then Rolling
  else if isSettling s then Settling
  else if JS.truthy (rollValue s) then Resolved
  else Idle.

End D6Dice.

(** ** App.tsx *)

Inductive DiceType : Type := d20 | d6.

Module App.

Record state : Type := mk {
  displayValue : option JS.number;
  multiplier : JS.number;
  selectedDice : DiceType
}.

(** The three [useState] initial values. *)
Definition init : state := mk None #1%js d20.

Definition handleRollComplete (value : JS.number) (s : state) : state :=
  mk (Some value) #1%js (selectedDice s).

Definition handleMultiply (factor : JS.number) (s : state) : state :=
  match displayValue s with
  | Some v => mk (Some (v * factor)%js) (multiplier s * factor)%js (selectedDice s)
  | None => s
  end.

Definition handleResetMultiplier (s : state) : state :=
  match displayValue s with
  | Some v =>
      if (multiplier s >? #1)%js
      then mk (Some (v / multiplier s)%js) #1%js (selectedDice s)
      else s
  | None => s
  end.

Definition setSelectedDice (d : DiceType) (s : state) : state :=
  mk (displayValue s) (multiplier s) d.

(** The factors of the multiply buttons. *)
Definition factors : list Z := [2; 3; 4; 5; 6].

(** [disabled={multiplier <= 1}] of the reset button. *)
Definition resetDisabled (s : state) : bool := (multiplier s <=? #1)%js.

(** [disabled={displayValue === null}] of the multiply buttons. *)
Definition multiplyDisabled (s : state) : bool :=
  match displayValue s with
  | None => true
  | Some _ => false
  end.

(** [{multiplier > 1 && (<span>Current: {multiplier}x</span>)}]. *)
Definition multiplierDisplayed (s : state) : bool := (multiplier s >? #1)%js.

End App.

(** ** The Scene between App and the dice *)

Module Scene.

Import Three.

(** The die instance the scene shows. *)
Inductive die : Type :=
| D20 (s : D20Dice.state)
| D6 (s : D6Dice.state).

Definition kind (d : die) : DiceType :=
  match d with D20 _ => d20 | D6 _ => d6 end.

Definition phase (d : die) : Phase :=
  match d with D20 s => D20Dice.phase s | D6 s => D6Dice.phase s end.

Definition isRolling (d : die) : bool :=
  match d with D20 s => D20Dice.isRolling s | D6 s => D6Dice.isRolling s end.

(** Modelled from the spec: the [Scene] that App renders with
    [onRollComplete], [displayValue] and [selectedDice] is not among the
    sources (only an earlier one without props is).  Section 4.4: switching
    type unmounts the previous Roll Engine instance, discarding its state,
    and mounts a fresh one at Idle.  A fresh instance has the initial values
    of its [useState] and [useRef] cells and a mesh at rotation (0, 0, 0). *)
Definition mount (d : DiceType) : die :=
  let origin := euler #0%js #0%js #0%js in
  match d with
  | d20 => D20 (D20Dice.mk false None (Some origin))
  | d6 => D6 (D6Dice.mk false None false (Some origin) (Some origin) false false)
  end.

(** An instance after its unmount: React has set [meshRef.current] to null,
    and the state setters its pending callbacks still hold change nothing
    that is rendered. *)
Definition unmounted (d : DiceType) : die :=
  match d with
  | d20 => D20 (D20Dice.mk false None None)
  | d6 => D6 (D6Dice.mk false None false None None false false)
  end.

Definition handleClick (d : die) : die * list effect :=
  match d with
  | D20 s => let '(s', effs) := D20Dice.handleClick s in (D20 s', effs)
  | D6 s => let '(s', effs) := D6Dice.handleClick s in (D6 s', effs)
  end.

Definition useFrame (delta : JS.number) (d : die) : die * list effect :=
  match d with
  | D20 s => (D20 (D20Dice.useFrame delta s), [])
  | D6 s => let '(s', effs) := D6Dice.useFrame delta s in (D6 s', effs)
  end.

(** Modelled from the spec: sections 4.1 and 6, the six-sided die's
    roll-completion notification reaches the Multiplier Overlay, so the
    missing [Scene] hands App's [onRollComplete] on to [D6Dice].  [D20Dice]
    declares no such prop. *)
Definition timeout (random : JS.number) (d : die) : die * list effect :=
  match d with
  | D20 s => let '(s', effs) := D20Dice.timeout random s in (D20 s', effs)
  | D6 s => let '(s', effs) := D6Dice.timeout true random s in (D6 s', effs)
  end.

End Scene.

(** ** The page: App, the mounted die and the pending timers *)

Module Page.

(** [live] names the mounted die instance, [timers] the pending
    [setTimeout] callbacks in the order they were scheduled, each with the
    instance that scheduled it and its type; [fresh] is the next unused
    instance name. *)
Record page : Type := mk {
  app : App.state;
  live : nat;
  dice : Scene.die;
  timers : list (nat * DiceType);
  fresh : nat
}.

Definition init : page := mk App.init 0%nat (Scene.mount d20) [] 1%nat.

Inductive event : Type :=
| Click                          (* a click on the die's mesh *)
| Frame (delta : JS.number)      (* a rendered frame *)
| TimerFires (random : JS.number)
    (* the oldest pending timer fires; [Math.random()] returns [random] *)
| SelectDice (d : DiceType)      (* a click on a sidebar button *)
| Multiply (factor : JS.number)  (* a click on a multiply button *)
| ResetMultiplier.               (* a click on the reset button *)

(** App runs [handleRollComplete] for every call of the prop. *)
Definition notify (effs : list effect) (a : App.state) : App.state :=
  fold_left
    (fun a e => match e with OnRollComplete v => App.handleRollComplete v a | _ => a end)
    effs a.

(** The timers an instance [i] of type [k] schedules. *)
Definition scheduled (i : nat) (k : DiceType) (effs : list effect)
  : list (nat * DiceType) :=
  flat_map (fun e => match e with SetTimeout _ => [(i, k)] | _ => [] end) effs.

Definition step (ev : event) (p : page) : page :=
  match ev with
  | Click =>
      let '(d, effs) := Scene.handleClick (dice p) in
      mk (notify effs (app p)) (live p) d
         (timers p ++ scheduled (live p) (Scene.kind (dice p)) effs) (fresh p)
  | Frame delta =>
      let '(d, effs) := Scene.useFrame delta (dice p) in
      mk (notify effs (app p)) (live p) d (timers p) (fresh p)
  | TimerFires random =>
      match timers p with
      | [] => p
      | (i, k) :: rest =>
          if Nat.eqb i (live p) then
            let '(d, effs) := Scene.timeout random (dice p) in
            mk (notify effs (app p)) (live p) d rest (fresh p)
          else
            (* the callback of an unmounted instance: its effects remain *)
            let effs := snd (Scene.timeout random (Scene.unmounted k)) in
            mk (notify effs (app p)) (live p) (dice p) rest (fresh p)
      end
  | SelectDice d =>
      match d, App.selectedDice (app p) with
      | d20, d20 | d6, d6 => p
      | _, _ =>
          mk (App.setSelectedDice d (app p)) (fresh p) (Scene.mount d)
             (timers p) (S (fresh p))
      end
  | Multiply factor =>
      mk (App.handleMultiply factor (app p)) (live p) (dice p) (timers p) (fresh p)
  | ResetMultiplier =>
      mk (App.handleResetMultiplier (app p)) (live p) (dice p) (timers p) (fresh p)
  end.

Definition run (evs : list event) (p : page) : page :=
  fold_left (fun p ev => step ev p) evs p.

End Page.

(** ** Vocabulary of the statements *)

(** The table lookup [FACE_UP_ROTATIONS[outcome - 1]] both completion
    callbacks perform: the specification's [orientationOf]. *)
Definition orientationOf (d : DiceType) (outcome : JS.number) : option Three.Euler :=
  match d with
  | d20 => JS.array_get D20Dice.FACE_UP_ROTATIONS (outcome - #1)%js
  | d6 => JS.array_get D6Dice.FACE_UP_ROTATIONS (outcome - #1)%js
  end.

(** The number of faces of a die. *)
Definition faces (d : DiceType) : Z :=
  match d with d20 => 20 | d6 => 6 end.

(** The numbers [Math.random()] returns: finite, not below 0, below 1. *)
Definition unit_interval (u : JS.number) : Prop :=
  valid_binary JS.prec JS.emax u = true
  /\ (u <? #0)%js = false /\ (u <? #1)%js = true.

(** The rotation a settling frame eases to, before the threshold test. *)
Definition eased (delta : JS.number) (r t : Three.Euler) : Three.Euler :=
  let lerpFactor := (#25 * delta)%js in
  Three.euler (Three.lerp (Three.x r) (Three.x t) lerpFactor)
              (Three.lerp (Three.y r) (Three.y t) lerpFactor)
              (Three.lerp (Three.z r) (Three.z t) lerpFactor).

(** [|a - b| < 0.1] on one axis. *)
Definition within_threshold (a b : JS.number) : bool :=
  (JS.Math_abs (a - b) <? JS.dec 1 10)%js.

(** The two cells of the Multiplier Overlay. *)
Definition overlay (a : App.state) : option JS.number * JS.number :=
  (App.displayValue a, App.multiplier a).

Definition product (fs : list Z) : Z := fold_right Z.mul 1 fs.

(** The multiply buttons pressed one after the other. *)
Definition multiplied (fs : list Z) (s : App.state) : App.state :=
  fold_left (fun s f => App.handleMultiply #f%js s) fs s.

(** Sequences of the overlay's three operations. *)
Module Overlay.

Inductive op : Type :=
| RollComplete (outcome : Z)
| MultiplyBy (factor : Z)
| Reset.

Definition apply (o : op) (s : App.state) : App.state :=
  match o with
  | RollComplete v => App.handleRollComplete #v%js s
  | MultiplyBy f => App.handleMultiply #f%js s
  | Reset => App.handleResetMultiplier s
  end.

Definition run (ops : list op) (s : App.state) : App.state :=
  fold_left (fun s o => apply o s) ops s.

(** The outcome of the most recent roll-completion notification. *)
Definition last_outcome (ops : list op) (before : option Z) : option Z :=
  fold_left (fun acc o => match o with RollComplete v => Some v | _ => acc end)
            ops before.

(** The display value is the last outcome times the multiplier, and the
    multiplier is an integer not below 1. *)
Definition invariant (outcome : option Z) (s : App.state) : Prop :=
  (exists m, 1 <= m /\ JS.integer_value (App.multiplier s) = Some m)
  /\ forall d, App.displayValue s = Some d ->
       exists v, outcome = Some v /\ d = (#v * App.multiplier s)%js.

(** The sequence stays where binary64 is exact on integers: outcomes are
    positive, factors are those of the buttons, and the outcome times the
    cumulative multiplier [m] stays below 2^53. *)
Fixpoint in_range (outcome : option Z) (m : Z) (ops : list op) : bool :=
  match ops with
  | [] => true
  | RollComplete v :: ops =>
      (1 <=? v) && (v <? 2 ^ 53) && in_range (Some v) 1 ops
  | MultiplyBy f :: ops =>
      bool_decide (f ∈ App.factors) &&
      match outcome with
      | Some v => (v * (m * f) <? 2 ^ 53) && in_range outcome (m * f) ops
      | None => in_range outcome m ops
      end
  | Reset :: ops => in_range outcome 1 ops
  end.

(** The state holds, exactly, the integers the sequence has computed:
    the multiplier [m] and, after a roll, the outcome times [m]. *)
Definition tracks (outcome : option Z) (m : Z) (s : App.state) : Prop :=
  1 <= m /\ App.multiplier s = #m%js /\
  match outcome with
  | None => App.displayValue s = None /\ m = 1
  | Some v => 1 <= v /\ v * m < 2 ^ 53 /\ App.displayValue s = Some #(v * m)%js
  end.

(** A roll of 3 followed by twenty-three presses of the x5 button. *)
Definition three_times_fives : list op :=
  RollComplete 3 :: repeat (MultiplyBy 5) 23.

(** No operation of the sequence is a roll-completion notification. *)
Definition no_roll (ops : list op) : bool :=
  forallb (fun o => match o with RollComplete _ => false | _ => true end) ops.

End Overlay.

(** Three runs of the page from its initial state, with [Math.random()]
    returning 0.5: a roll of the twenty-sided die to its end; a roll of the
    six-sided die up to its Settling phase; and a roll of the six-sided die
    left in flight by choosing the twenty-sided die. *)
Definition d20_rolled : Page.page :=
  Page.run [Page.Click; Page.TimerFires (JS.dec 5 10)] Page.init.

Definition d6_settling : Page.page :=
  Page.run [Page.SelectDice d6; Page.Click; Page.TimerFires (JS.dec 5 10)] Page.init.

Definition switched_in_flight : Page.page :=
  Page.run [Page.SelectDice d6; Page.Click; Page.SelectDice d20] Page.init.

(** The pending timers of the mounted die instance. *)
Definition pending (p : Page.page) : nat :=
  length (List.filter (fun t => Nat.eqb (fst t) (Page.live p)) (Page.timers p)).

(** The rolls in flight on the mounted die: one while it is rolling. *)
Definition in_flight (p : Page.page) : nat :=
  if Scene.isRolling (Page.dice p) then 1%nat else 0%nat.

(** What happens to one six-sided die instance: rendered frames, clicks
    and the firing of its timer, with the effects performed in order. *)
Inductive d6_event : Type :=
| D6Frame (delta : JS.number)
| D6Click
| D6Completion (onRollComplete : bool) (random : JS.number).

Definition d6_step (ev : d6_event) (s : D6Dice.state) : D6Dice.state * list effect :=
  match ev with
  | D6Frame delta => D6Dice.useFrame delta s
  | D6Click => D6Dice.handleClick s
  | D6Completion onRollComplete random => D6Dice.timeout onRollComplete random s
  end.

Fixpoint d6_run (evs : list d6_event) (s : D6Dice.state) : D6Dice.state * list effect :=
  match evs with
  | [] => (s, [])
  | ev :: evs =>
      let '(s1, effs1) := d6_step ev s in
      let '(s2, effs2) := d6_run evs s1 in
      (s2, effs1 ++ effs2)
  end.

Definition is_settle_sound (e : effect) : bool :=
  match e with
  | Play src _ _ => String.eqb src D6Dice.SETTLE_SOUND_PATH
  | _ => false
  end.

(** How often the settle sound is played. *)
Definition settle_sounds (effs : list effect) : nat :=
  length (List.filter is_settle_sound effs).

Definition completions (evs : list d6_event) : nat :=
  length (List.filter (fun ev => match ev with D6Completion _ _ => true | _ => false end) evs).

(** Every pending timer was scheduled by an instance mounted so far, the
    mounted one among them. *)
Definition well_named (p : Page.page) : Prop :=
  (Page.live p < Page.fresh p)%nat
  /\ Forall (fun t => (fst t < Page.fresh p)%nat) (Page.timers p).

(** Binary64 representations: the number of bits of a mantissa, a
    mantissa scaled by a power of two, the normal form of a positive
    integer with at most 53 bits, and the renormalisation that ends
    [binary_round_aux]. *)
Definition digits (p : positive) : Z := Zpos (digits2_pos p).

Definition shl (p : positive) (k : Z) : positive := Z.to_pos (Zpos p * 2 ^ k).

Definition canon (n : positive) : JS.number :=
  S754_finite false (shl n (53 - digits n)) (digits n - 53).

Definition finish (m1 e1 : Z) : spec_float :=
  let '(mrs, e2) := shr_fexp JS.prec JS.emax m1 e1 loc_Exact in
  match shr_m mrs with
  | Z0 => S754_zero false
  | Zpos m => if e2 <=? JS.emax - JS.prec then S754_finite false m e2 else S754_infinity false
  | Zneg _ => S754_nan
  end.

(** * Binary64 arithmetic on integers *)

Lemma digits_log2 p : digits p = Z.log2 (Zpos p) + 1.
Proof.
  unfold digits. induction p as [p IH|p IH|]; simpl; try reflexivity.
  - rewrite Pos2Z.inj_succ, IH. destruct p; simpl; lia.
  - rewrite Pos2Z.inj_succ, IH. destruct p; simpl; lia.
Qed.

Lemma digits_pos p : 1 <= digits p.
Proof. unfold digits. lia. Qed.

Lemma digits_bounds p : 2 ^ (digits p - 1) <= Zpos p < 2 ^ digits p.
Proof.
  rewrite digits_log2. replace (Z.log2 (Zpos p) + 1 - 1) with (Z.log2 (Zpos p)) by lia.
  apply Z.log2_spec. lia.
Qed.

Lemma digits_unique p k : 2 ^ (k - 1) <= Zpos p < 2 ^ k -> digits p = k.
Proof.
  intros H. rewrite digits_log2.
  assert (Z.log2 (Zpos p) = k - 1); [|lia].
  apply Z.log2_unique; [|replace (Z.succ (k - 1)) with k by lia; exact H].
  destruct (Z.le_gt_cases 0 (k - 1)) as [|Hneg]; [assumption|].
  exfalso. destruct H as [_ H]. 
  assert (k <= 0) by lia.
  assert (2 ^ k <= 1).
  { destruct (Z.eq_dec k 0) as [->|]; [simpl; lia|]. rewrite Z.pow_neg_r; lia. }
  lia.
Qed.

Lemma shl_spec p k : 0 <= k -> Zpos (shl p k) = Zpos p * 2 ^ k.
Proof.
  intros Hk. unfold shl. rewrite Z2Pos.id; [reflexivity|].
  apply Z.mul_pos_pos; [lia|]. apply Z.pow_pos_nonneg; lia.
Qed.

Lemma digits_shl p k : 0 <= k -> digits (shl p k) = digits p + k.
Proof.
  intros Hk. apply digits_unique. rewrite shl_spec by assumption.
  pose proof (digits_bounds p) as [Hlo Hhi]. pose proof (digits_pos p).
  replace (digits p + k - 1) with ((digits p - 1) + k) by lia.
  rewrite !Z.pow_add_r by lia.
  assert (0 < 2 ^ k) by (apply Z.pow_pos_nonneg; lia).
  split; nia.
Qed.

Lemma iter_xO_shl p n : Pos.iter xO p n = shl p (Zpos n).
Proof.
  apply Pos2Z.inj. rewrite shl_spec by lia.
  revert p. induction n as [|n IH] using Pos.peano_ind; intros p.
  - simpl. lia.
  - rewrite Pos.iter_succ. rewrite Pos2Z.inj_xO, IH, Pos2Z.inj_succ, Z.pow_succ_r by lia. lia.
Qed.

Lemma iter_pos_nat {A} (f : A -> A) (n : positive) (a : A) :
  SpecFloat.iter_pos f n a = Nat.iter (Pos.to_nat n) f a.
Proof.
  revert a. induction n as [n IH|n IH|]; intros a; simpl SpecFloat.iter_pos.
  - rewrite !IH. rewrite Pos2Nat.inj_xI. 
    replace (S (2 * Pos.to_nat n))%nat with (Pos.to_nat n + (Pos.to_nat n + 1))%nat by lia.
    rewrite !Nat.iter_add. simpl. reflexivity.
  - rewrite !IH. rewrite Pos2Nat.inj_xO.
    replace (2 * Pos.to_nat n)%nat with (Pos.to_nat n + Pos.to_nat n)%nat by lia.
    rewrite Nat.iter_add. reflexivity.
  - reflexivity.
Qed.

Lemma shr_1_nonneg m r s : 0 <= m ->
  shr_1 (Build_shr_record m r s) = Build_shr_record (Z.div2 m) (Z.odd m) (r || s).
Proof.
  intros Hm. destruct m as [|p|p]; [reflexivity| |lia].
  destruct p; reflexivity.
Qed.

Lemma iter_shr_1_exact (n : nat) (m : Z) : 0 <= m ->
  Nat.iter n shr_1 (Build_shr_record (m * 2 ^ Z.of_nat n) false false)
  = Build_shr_record m false false.
Proof.
  intros Hm. induction n as [|n IH].
  - simpl. f_equal. lia.
  - rewrite Nat.iter_succ_r.
    assert (0 < 2 ^ Z.of_nat n) by (apply Z.pow_pos_nonneg; lia).
    rewrite shr_1_nonneg by nia.
    rewrite Nat2Z.inj_succ, Z.pow_succ_r by lia.
    replace (m * (2 * 2 ^ Z.of_nat n)) with (2 * (m * 2 ^ Z.of_nat n)) by lia.
    rewrite Z.div2_div, Z.odd_mul, (Z.mul_comm 2), Z.div_mul by lia.
    exact IH.
Qed.

Lemma shr_exact m e s : 0 <= m -> 0 <= s ->
  shr (Build_shr_record (m * 2 ^ s) false false) e s = (Build_shr_record m false false, e + s).
Proof.
  intros Hm Hs. destruct s as [|s|s]; [|clear Hs|lia].
  - simpl. rewrite Z.mul_1_r, Z.add_0_r. reflexivity.
  - unfold shr. rewrite iter_pos_nat. f_equal.
    rewrite <- (positive_nat_Z s). apply iter_shr_1_exact. assumption.
Qed.

Lemma fexp_normal d : -1021 <= d -> fexp JS.prec JS.emax d = d - 53.
Proof. intros H. unfold fexp, emin, JS.prec, JS.emax. lia. Qed.

Lemma shr_fexp_exact (n : positive) (k : Z) :
  0 <= k -> digits n <= 53 -> 53 <= digits n + k ->
  shr_fexp JS.prec JS.emax (Zpos (shl n k)) (- k) loc_Exact
  = (Build_shr_record (Zpos (shl n (53 - digits n))) false false, digits n - 53).
Proof.
  intros Hk Hn Hnk. pose proof (digits_pos n) as Hd.
  unfold shr_fexp. cbn [Zdigits2 shr_record_of_loc].
  fold (digits (shl n k)). rewrite digits_shl by assumption.
  rewrite fexp_normal by lia.
  replace (Zpos (shl n k))
    with (Zpos (shl n (53 - digits n)) * 2 ^ (digits n + k + - k - 53 - - k)).
  - rewrite shr_exact by lia. f_equal; lia.
  - rewrite !shl_spec by lia. rewrite <- Z.mul_assoc, <- Z.pow_add_r by lia.
    f_equal. f_equal. lia.
Qed.

Lemma binary_round_aux_exact (n : positive) (k : Z) :
  0 <= k -> digits n <= 53 -> 53 <= digits n + k ->
  binary_round_aux JS.prec JS.emax false (Zpos (shl n k)) (- k) loc_Exact = canon n.
Proof.
  intros Hk Hn Hnk. pose proof (digits_pos n) as Hd.
  unfold binary_round_aux. rewrite shr_fexp_exact by assumption.
  cbn [shr_m loc_of_shr_record round_nearest_even].
  replace (digits n - 53) with (- (53 - digits n)) by lia.
  rewrite shr_fexp_exact by lia.
  cbn [shr_m].
  replace (digits n - 53 <=? JS.emax - JS.prec) with true; [|symmetry; apply Z.leb_le; unfold JS.emax, JS.prec; lia].
  unfold canon. f_equal; lia.
Qed.

Lemma num_canon (n : positive) : Zpos n < 2 ^ 53 -> JS.num (Zpos n) = canon n.
Proof.
  intros Hlt. pose proof (digits_pos n) as Hd. pose proof (digits_bounds n) as [Hlo _].
  assert (Hn : digits n <= 53).
  { destruct (Z.le_gt_cases (digits n) 53) as [|Hgt]; [assumption|exfalso].
    assert (2 ^ 53 <= 2 ^ (digits n - 1)) by (apply Z.pow_le_mono_r; lia). lia. }
  unfold JS.num, binary_normalize, binary_round, shl_align.
  fold (digits n). rewrite Z.add_0_r, fexp_normal by lia.
  destruct (digits n - 53 - 0) as [|d|d] eqn:Hsub; [|lia|].
  - replace (Zpos n) with (Zpos (shl n 0)) by (rewrite shl_spec; lia).
    change 0 with (- 0) at 2. apply binary_round_aux_exact; lia.
  - rewrite iter_xO_shl.
    replace (digits n - 53) with (- Zpos d) by lia.
    apply binary_round_aux_exact; lia.
Qed.

Lemma digits_le_53 (n : positive) : Zpos n < 2 ^ 53 -> digits n <= 53.
Proof.
  intros Hlt. pose proof (digits_bounds n) as [Hlo _].
  destruct (Z.le_gt_cases (digits n) 53) as [|Hgt]; [assumption|exfalso].
  assert (2 ^ 53 <= 2 ^ (digits n - 1)) by (apply Z.pow_le_mono_r; lia). lia.
Qed.

Lemma digits_mul (a b : positive) :
  digits a + digits b - 1 <= digits (a * b) <= digits a + digits b.
Proof.
  pose proof (digits_bounds a) as [Ha1 Ha2]. pose proof (digits_bounds b) as [Hb1 Hb2].
  pose proof (digits_bounds (a * b)) as [Hc1 Hc2].
  pose proof (digits_pos a) as Hpa. pose proof (digits_pos b) as Hpb.
  pose proof (digits_pos (a * b)) as Hpc.
  rewrite Pos2Z.inj_mul in Hc1, Hc2.
  assert (H1 : 2 ^ (digits a - 1 + (digits b - 1)) <= Zpos a * Zpos b).
  { rewrite Z.pow_add_r by lia. apply Z.mul_le_mono_nonneg; try assumption; apply Z.pow_nonneg; lia. }
  assert (H2 : Zpos a * Zpos b < 2 ^ (digits a + digits b)).
  { rewrite Z.pow_add_r by lia. apply Z.mul_lt_mono_nonneg; lia. }
  split.
  - assert (digits a - 1 + (digits b - 1) < digits (a * b)); [|lia].
    apply (Z.pow_lt_mono_r_iff 2); lia.
  - assert (digits (a * b) - 1 < digits a + digits b); [|lia].
    apply (Z.pow_lt_mono_r_iff 2); lia.
Qed.

Lemma canon_mul (a b : positive) :
  Zpos (a * b) < 2 ^ 53 -> JS.mul (canon a) (canon b) = canon (a * b).
Proof.
  intros Hab. pose proof (digits_le_53 _ Hab) as Hd. pose proof (digits_mul a b) as [Hm1 Hm2].
  pose proof (digits_pos a). pose proof (digits_pos b).
  unfold JS.mul, canon at 1 2, SFmul. cbn [xorb].
  replace (digits a - 53 + (digits b - 53)) with (- (106 - digits a - digits b)) by lia.
  replace (shl a (53 - digits a) * shl b (53 - digits b))%positive
    with (shl (a * b) (106 - digits a - digits b)).
  - apply binary_round_aux_exact; lia.
  - apply Pos2Z.inj. rewrite Pos2Z.inj_mul, !shl_spec by lia.
    rewrite Pos2Z.inj_mul.
    replace (106 - digits a - digits b) with ((53 - digits a) + (53 - digits b)) by lia.
    rewrite Z.pow_add_r by lia. ring.
Qed.

Lemma div_eucl_exact (q b : Z) : b <> 0 -> Z.div_eucl (q * b) b = (q, 0).
Proof.
  intros Hb.
  assert (E : Z.div_eucl (q * b) b = ((q * b) / b, (q * b) mod b)).
  { unfold Z.div, Z.modulo. destruct (Z.div_eucl (q * b) b); reflexivity. }
  rewrite E, Z.div_mul, Z.mod_mul by assumption. reflexivity.
Qed.

Lemma new_location_exact (nb : Z) : new_location nb 0 = loc_Exact.
Proof. unfold new_location, new_location_even, new_location_odd. destruct (Z.even nb); reflexivity. Qed.

Lemma canon_div (a b : positive) :
  Zpos (a * b) < 2 ^ 53 -> JS.div (canon (a * b)) (canon b) = canon a.
Proof.
  intros Hab. pose proof (digits_le_53 _ Hab) as Hd. pose proof (digits_mul a b) as [Hm1 Hm2].
  pose proof (digits_pos a) as Hpa. pose proof (digits_pos b) as Hpb.
  set (k := 53 - digits (a * b) + digits b).
  unfold JS.div, canon at 1 2, SFdiv, SFdiv_core_binary. cbn [xorb Zdigits2].
  fold (digits (shl (a * b) (53 - digits (a * b)))). fold (digits (shl b (53 - digits b))).
  rewrite !digits_shl by lia.
  replace (digits (a * b) + (53 - digits (a * b)) + (digits (a * b) - 53)
           - (digits b + (53 - digits b) + (digits b - 53)))
    with (digits (a * b) - digits b) by lia.
  rewrite fexp_normal by lia.
  replace (Z.min (digits (a * b) - digits b - 53) (digits (a * b) - 53 - (digits b - 53)))
    with (- k) by lia.
  replace (digits (a * b) - 53 - (digits b - 53) - - k) with 53 by lia.
  rewrite Z.shiftl_mul_pow2 by lia.
  replace (Zpos (shl (a * b) (53 - digits (a * b))) * 2 ^ 53)
    with (Zpos (shl a k) * Zpos (shl b (53 - digits b))).
  - rewrite div_eucl_exact by lia. rewrite new_location_exact.
    apply binary_round_aux_exact; lia.
  - rewrite !shl_spec by lia. rewrite Pos2Z.inj_mul.
    replace (Zpos a * 2 ^ k * (Zpos b * 2 ^ (53 - digits b)))
      with (Zpos a * Zpos b * (2 ^ k * 2 ^ (53 - digits b))) by ring.
    rewrite <- !Z.mul_assoc, <- !Z.pow_add_r by lia.
    do 3 f_equal. lia.
Qed.

Lemma canon_gt_1 (m : positive) : JS.gt (canon m) (canon 1) = (1 <? Zpos m).
Proof.
  unfold JS.gt, SFltb, canon, SFcompare.
  pose proof (digits_pos m) as Hd. pose proof (digits_bounds m) as [Hlo Hhi].
  change (digits 1) with 1.
  destruct (Z.compare_spec (1 - 53) (digits m - 53)) as [E|L|G]; [| |lia].
  - assert (Em : digits m = 1) by lia. rewrite Em in *. 
    assert (m = 1%positive) as -> by (simpl in Hhi; lia). reflexivity.
  - symmetry. apply Z.ltb_lt.
    assert (2 ^ 1 <= 2 ^ (digits m - 1)) by (apply Z.pow_le_mono_r; lia). simpl in *. lia.
Qed.

Lemma product_pos fs : Forall (fun f => 1 <= f) fs -> 1 <= product fs.
Proof. induction 1 as [|f fs Hf _ IH]; simpl; nia. Qed.

Lemma num_canon_Z (z : Z) : 1 <= z < 2 ^ 53 -> JS.num z = canon (Z.to_pos z).
Proof.
  intros [H1 H2]. destruct z as [|p|p]; try lia. simpl Z.to_pos. apply num_canon. assumption.
Qed.

Lemma num_mul (a b : Z) :
  1 <= a -> 1 <= b -> a * b < 2 ^ 53 -> (JS.num a * JS.num b)%js = JS.num (a * b).
Proof.
  intros Ha Hb Hab.
  destruct a as [|a|a]; try lia. destruct b as [|b|b]; try lia.
  assert (Zpos a < 2 ^ 53) by nia. assert (Zpos b < 2 ^ 53) by nia.
  change (Zpos a * Zpos b) with (Zpos (a * b)) in *.
  rewrite !num_canon by assumption. apply canon_mul. assumption.
Qed.

Lemma num_div (a b : Z) :
  1 <= a -> 1 <= b -> a * b < 2 ^ 53 -> (JS.num (a * b) / JS.num b)%js = JS.num a.
Proof.
  intros Ha Hb Hab.
  destruct a as [|a|a]; try lia. destruct b as [|b|b]; try lia.
  assert (Zpos a < 2 ^ 53) by nia. assert (Zpos b < 2 ^ 53) by nia.
  change (Zpos a * Zpos b) with (Zpos (a * b)) in *.
  rewrite !num_canon by assumption. apply canon_div. assumption.
Qed.

Lemma num_gt_1 (m : Z) : 1 <= m < 2 ^ 53 -> (JS.num m >? JS.num 1)%js = (1 <? m).
Proof.
  intros [H1 H2]. destruct m as [|m|m]; try lia.
  rewrite !num_canon by (simpl; lia). apply canon_gt_1.
Qed.

Lemma multiplied_exact (fs : list Z) (v m : Z) (d : DiceType) :
  1 <= v -> 1 <= m -> Forall (fun f => 1 <= f) fs -> v * (m * product fs) < 2 ^ 53 ->
  multiplied fs (App.mk (Some (JS.num (v * m))) (JS.num m) d)
  = App.mk (Some (JS.num (v * (m * product fs)))) (JS.num (m * product fs)) d.
Proof.
  intros Hv Hm Hfs. revert m Hm. induction Hfs as [|f fs Hf Hfs IH]; intros m Hm Hb; simpl.
  - rewrite Z.mul_1_r. reflexivity.
  - pose proof (product_pos fs Hfs) as Hp.
    assert (Hvmf : 1 <= v * (m * f)) by nia.
    assert (Hb' : v * (m * f) < 2 ^ 53).
    { apply Z.le_lt_trans with (v * (m * f) * product fs); [nia|].
      replace (v * (m * f) * product fs) with (v * (m * (f * product fs))) by ring. exact Hb. }
    unfold App.handleMultiply. cbn [App.displayValue App.multiplier App.selectedDice].
    rewrite !num_mul by nia.
    replace (v * m * f) with (v * (m * f)) by ring.
    rewrite IH; [|nia|].
    + replace (m * f * product fs) with (m * (f * product fs)) by ring. reflexivity.
    + replace (v * (m * f * product fs)) with (v * (m * (f * product fs))) by ring. exact Hb.
Qed.

Lemma iter_shr_1_inv (n : nat) (M : Z) : 0 <= M ->
  let rec := Nat.iter n shr_1 (Build_shr_record M false false) in
  0 <= shr_m rec /\
  exists rem, M = shr_m rec * 2 ^ Z.of_nat n + rem /\ 0 <= rem < 2 ^ Z.of_nat n
              /\ (shr_r rec = true -> 2 ^ Z.of_nat n <= 2 * rem).
Proof.
  intros HM. induction n as [|n IH].
  - simpl. split; [assumption|]. exists 0. repeat split; first [lia | discriminate].
  - cbn zeta in IH |- *. rewrite Nat.iter_succ.
    destruct (Nat.iter n shr_1 (Build_shr_record M false false)) as [q r s].
    cbn [shr_m shr_r] in IH. destruct IH as [Hq (rem & HMq & Hrem & _)].
    rewrite shr_1_nonneg by assumption. cbn [shr_m shr_r].
    rewrite Nat2Z.inj_succ, Z.pow_succ_r by lia.
    assert (Hp : 0 < 2 ^ Z.of_nat n) by (apply Z.pow_pos_nonneg; lia).
    pose proof (Zdiv2_odd_eqn q) as Hodd. rewrite Z.div2_div in *.
    split; [apply Z.div_pos; lia|].
    destruct (Z.odd q).
    + exists (2 ^ Z.of_nat n + rem). repeat split; try nia.
    + exists rem. repeat split; first [nia | discriminate].
Qed.

Lemma shr_trunc (m e n : Z) : 0 <= m ->
  let '(mrs, e') := shr (Build_shr_record m false false) e n in
  0 <= shr_m mrs /\ e' = e + Z.max 0 n /\ shr_m mrs * 2 ^ (Z.max 0 n) <= m
  /\ (1 <= n -> shr_r mrs = true -> 2 * (shr_m mrs + 1) * 2 ^ n <= 2 * m + 2 ^ n).
Proof.
  intros Hm. destruct n as [|n|n]; cbn [shr].
  - cbn [shr_m]. change (Z.max 0 0) with 0. rewrite Z.pow_0_r. repeat split; intros; lia.
  - rewrite iter_pos_nat.
    pose proof (iter_shr_1_inv (Pos.to_nat n) m Hm) as H. cbn zeta in H.
    destruct (Nat.iter (Pos.to_nat n) shr_1 (Build_shr_record m false false)) as [q r s].
    cbn [shr_m shr_r] in *. rewrite positive_nat_Z in H.
    destruct H as [Hq (rem & HMq & Hrem & Hr)].
    replace (Z.max 0 (Zpos n)) with (Zpos n) by lia.
    repeat split; try lia. intros _ Hrt. specialize (Hr Hrt). nia.
  - cbn [shr_m]. change (Z.max 0 (Zneg n)) with 0. rewrite Z.pow_0_r. repeat split; intros; lia.
Qed.

Lemma round_nearest_even_cases (mrs : shr_record) :
  let m1 := round_nearest_even (shr_m mrs) (loc_of_shr_record mrs) in
  m1 = shr_m mrs \/ (m1 = shr_m mrs + 1 /\ shr_r mrs = true).
Proof.
  destruct mrs as [q [|] [|]]; cbn; auto. destruct (Z.even q); auto.
Qed.

Lemma binary_round_aux_round (M : positive) (E s : Z) :
  s = fexp JS.prec JS.emax (digits M + E) - E -> 1 <= s ->
  exists m1, binary_round_aux JS.prec JS.emax false (Zpos M) E loc_Exact = finish m1 (E + s)
             /\ 0 <= m1 /\ 2 * m1 * 2 ^ s <= 2 * Zpos M + 2 ^ s.
Proof.
  intros Hs H1. unfold binary_round_aux, shr_fexp at 1. cbn [Zdigits2 shr_record_of_loc].
  fold (digits M). rewrite <- Hs.
  pose proof (shr_trunc (Zpos M) E s ltac:(lia)) as H.
  destruct (shr (Build_shr_record (Zpos M) false false) E s) as [mrs e'].
  destruct H as (Hq & -> & Htr & Hup).
  replace (Z.max 0 s) with s in * by lia.
  exists (round_nearest_even (shr_m mrs) (loc_of_shr_record mrs)).
  split; [reflexivity|].
  assert (0 < 2 ^ s) by (apply Z.pow_pos_nonneg; lia).
  destruct (round_nearest_even_cases mrs) as [-> | [-> Hr]].
  - split; [assumption|]. nia.
  - split; [lia|]. specialize (Hup H1 Hr). lia.
Qed.

Lemma fexp_eq (d : Z) : fexp JS.prec JS.emax d = Z.max (d - 53) (-1074).
Proof. reflexivity. Qed.

Lemma Zdigits2_le (m b : Z) : 0 <= m < 2 ^ b -> 0 <= b -> Zdigits2 m <= b.
Proof.
  intros [Hm Hb] Hb0. destruct m as [|p|p]; [simpl; lia| |lia].
  cbn [Zdigits2]. fold (digits p). pose proof (digits_bounds p) as [Hlo _].
  pose proof (digits_pos p).
  assert (digits p - 1 < b); [|lia]. apply (Z.pow_lt_mono_r_iff 2); lia.
Qed.

Lemma finish_bound (m1 e1 c : Z) :
  0 <= m1 -> e1 <= c -> fexp JS.prec JS.emax (Zdigits2 m1 + e1) <= c -> c <= 971 ->
  finish m1 e1 = S754_zero false \/
  exists m2 e2, finish m1 e1 = S754_finite false m2 e2 /\ e1 <= e2 <= c
                /\ Zpos m2 * 2 ^ (e2 - e1) <= m1.
Proof.
  intros Hm He Hf Hc. unfold finish, shr_fexp. cbn [shr_record_of_loc].
  pose proof (shr_trunc m1 e1 (fexp JS.prec JS.emax (Zdigits2 m1 + e1) - e1) Hm) as H.
  destruct (shr (Build_shr_record m1 false false) e1
              (fexp JS.prec JS.emax (Zdigits2 m1 + e1) - e1)) as [mrs e2].
  destruct H as (Hq & He2 & Htr & _).
  destruct (shr_m mrs) as [|m2|m2] eqn:Em; [left; reflexivity| |lia].
  right. exists m2, e2.
  replace (e2 <=? JS.emax - JS.prec) with true
    by (symmetry; apply Z.leb_le; unfold JS.emax, JS.prec; lia).
  split; [reflexivity|]. split; [lia|].
  replace (e2 - e1) with (Z.max 0 (fexp JS.prec JS.emax (Zdigits2 m1 + e1) - e1)) by lia.
  exact Htr.
Qed.

Lemma floor_fraction (m : positive) (e : Z) : e < 0 ->
  JS.Math_floor (S754_finite false m e) = JS.num (Zpos m / 2 ^ (- e)).
Proof.
  intros He. unfold JS.Math_floor.
  replace (0 <=? e) with false by (symmetry; apply Z.leb_gt; assumption).
  cbn [cond_Zopp]. rewrite Z.shiftr_div_pow2 by lia. reflexivity.
Qed.

Lemma num_1 : JS.num 1 = S754_finite false 4503599627370496 (-52).
Proof. vm_compute. reflexivity. Qed.

Lemma unit_interval_finite (s : bool) (m : positive) (e : Z) :
  unit_interval (S754_finite s m e) ->
  s = false /\ e <= -53 /\ digits m <= 53 /\ (digits m = 53 \/ e = -1074).
Proof.
  intros (Hv & H0 & H1).
  assert (s = false) as ->.
  { destruct s; [|reflexivity]. vm_compute in H0. discriminate H0. }
  cbn [valid_binary] in Hv. unfold bounded, canonical_mantissa in Hv.
  apply andb_true_iff in Hv as [Hc _]. apply Z.eqb_eq in Hc.
  fold (digits m) in Hc. rewrite fexp_eq in Hc.
  assert (Hd : digits m <= 53 /\ (digits m = 53 \/ e = -1074)) by lia.
  split; [reflexivity|]. split; [|exact Hd].
  rewrite num_1 in H1.
  unfold JS.lt, SFltb, SFcompare in H1.
  destruct (Z.compare_spec e (-52)) as [E|L|G]; [|lia|discriminate H1].
  exfalso. destruct Hd as [_ [Hd|Hd]]; [|lia].
  pose proof (digits_bounds m) as [Hlo _]. rewrite Hd in Hlo.
  rewrite Pos.compare_cont_spec in H1. cbn [Pos.switch_Eq] in H1.
  destruct (Pos.compare_spec m 4503599627370496) as [Hc1|Hc1|Hc1]; try discriminate H1.
  clear - Hc1 Hlo. change (2 ^ (53 - 1)) with 4503599627370496 in Hlo.
  apply Pos2Z.pos_lt_pos in Hc1. lia.
Qed.

Lemma pow2_pos (k : Z) : 0 <= k -> 0 < 2 ^ k.
Proof. intros. apply Z.pow_pos_nonneg; lia. Qed.

Lemma pos_lt_pow_digits (p : positive) (b : Z) : digits p <= b -> Zpos p < 2 ^ b.
Proof.
  intros H. pose proof (digits_bounds p) as [_ Hhi]. pose proof (digits_pos p).
  apply Z.lt_le_trans with (2 ^ digits p); [assumption|]. apply Z.pow_le_mono_r; lia.
Qed.

Lemma floor_mul_unit (N m : positive) (e : Z) :
  digits N <= 52 -> 2 ^ (digits N - 1) < Zpos N ->
  unit_interval (S754_finite false m e) ->
  exists j, 0 <= j < Zpos N /\
            JS.Math_floor (S754_finite false m e * canon N)%js = JS.num j.
Proof.
  intros HdN HN Hu.
  destruct (unit_interval_finite _ _ _ Hu) as (_ & He & Hdm & Hsub).
  pose proof (digits_pos N) as HdN1. pose proof (digits_pos m) as Hdm1.
  set (dN := digits N) in *.
  set (mN := shl N (53 - dN)).
  assert (HmN : Zpos mN = Zpos N * 2 ^ (53 - dN)) by (apply shl_spec; lia).
  assert (HdmN : digits mN = 53) by (unfold mN; rewrite digits_shl by lia; fold dN; lia).
  assert (HmN52 : 2 ^ 52 < Zpos mN).
  { rewrite HmN. replace 52 with ((dN - 1) + (53 - dN)) by lia.
    rewrite Z.pow_add_r by lia. apply Z.mul_lt_mono_pos_r; [apply pow2_pos; lia|assumption]. }
  unfold JS.mul, canon, SFmul. cbn [xorb]. fold dN. fold mN.
  set (M := (m * mN)%positive). set (E := e + (dN - 53)).
  pose proof (digits_mul m mN) as [HM1 HM2]. fold M in HM1, HM2. rewrite HdmN in HM1, HM2.
  set (s := fexp JS.prec JS.emax (digits M + E) - E).
  assert (Hs : s = Z.max (digits M + E - 53) (-1074) - E) by reflexivity.
  assert (Hs1 : 1 <= s) by (unfold E in *; lia).
  destruct (binary_round_aux_round M E s eq_refl Hs1) as (m1 & Hbra & Hm1 & HA).
  rewrite Hbra. clear Hbra.
  set (e1 := E + s) in *.
  assert (He1 : e1 <= dN - 53) by (unfold e1, E in *; lia).
  assert (Hm53 : Zpos m < 2 ^ 53) by (apply pos_lt_pow_digits; assumption).
  (* the rounded mantissa stays below N at the scale of the result *)
  assert (HB : m1 * 2 ^ s < Zpos mN * 2 ^ (- e)).
  { assert (HX : 2 ^ s < 2 * Zpos mN * (2 ^ (- e) - Zpos m)).
    { destruct (Z.eq_dec e (-53)) as [->|Hne].
      - assert (s <= 53) by (unfold E in *; lia).
        assert (2 ^ s <= 2 ^ 53) by (apply Z.pow_le_mono_r; lia).
        change (- -53) with 53.
        change (2 ^ 53) with 9007199254740992 in *. change (2 ^ 52) with 4503599627370496 in *.
        nia.
      - assert (Hs2 : s <= 52 + - e) by (unfold E in *; lia).
        assert (H54 : 2 ^ 54 <= 2 ^ (- e)) by (apply Z.pow_le_mono_r; lia).
        assert (HXle : 2 ^ s <= 2 ^ (52 + - e)) by (apply Z.pow_le_mono_r; lia).
        rewrite Z.pow_add_r in HXle by lia.
        change (2 ^ 54) with 18014398509481984 in *.
        change (2 ^ 53) with 9007199254740992 in *. change (2 ^ 52) with 4503599627370496 in *.
        set (P := 2 ^ (- e)) in *. set (X := 2 ^ s) in *.
        nia. }
    assert (HMz : Zpos M = Zpos m * Zpos mN) by (unfold M; apply Pos2Z.inj_mul).
    assert (0 < 2 ^ s) by (apply pow2_pos; lia).
    rewrite HMz in HA. nia. }
  assert (Hscale : Zpos mN * 2 ^ (- e) = Zpos N * 2 ^ (- e1) * 2 ^ s).
  { rewrite HmN, <- !Z.mul_assoc, <- !Z.pow_add_r by (unfold e1, E in *; lia).
    do 2 f_equal. unfold e1, E. lia. }
  assert (HB1 : m1 < Zpos N * 2 ^ (- e1)).
  { rewrite Hscale in HB. apply Z.mul_lt_mono_pos_r in HB; [assumption|apply pow2_pos; lia]. }
  assert (Hm1b : 0 <= m1 < 2 ^ (dN - e1)).
  { split; [assumption|]. apply Z.lt_trans with (Zpos N * 2 ^ (- e1)); [assumption|].
    replace (dN - e1) with (dN + - e1) by lia. rewrite Z.pow_add_r by lia.
    apply Z.mul_lt_mono_pos_r; [apply pow2_pos; lia|]. apply pos_lt_pow_digits. unfold dN. lia. }
  pose proof (Zdigits2_le m1 (dN - e1) Hm1b ltac:(lia)) as Hdig.
  destruct (finish_bound m1 e1 (dN - 53) Hm1 He1) as [Hz|(m2 & e2 & Hf & He2 & Hm2)].
  - rewrite fexp_eq. lia.
  - lia.
  - rewrite Hz. exists 0. split; [lia|reflexivity].
  - rewrite Hf. rewrite floor_fraction by lia.
    exists (Zpos m2 / 2 ^ (- e2)). split; [|reflexivity].
    assert (Hp2 : 0 < 2 ^ (- e2)) by (apply pow2_pos; lia).
    split; [apply Z.div_pos; lia|].
    apply Z.div_lt_upper_bound; [assumption|].
    assert (Hp3 : 0 < 2 ^ (e2 - e1)) by (apply pow2_pos; lia).
    assert (Hsplit : 2 ^ (- e1) = 2 ^ (- e2) * 2 ^ (e2 - e1)).
    { rewrite <- Z.pow_add_r by lia. f_equal. lia. }
    rewrite Hsplit in HB1. nia.
Qed.

(** * The dice *)

Lemma num_0 : #0%js = S754_zero false.
Proof. reflexivity. Qed.

Lemma add_one (j : Z) : 0 <= j < 20 -> (#j + #1)%js = #(j + 1)%js.
Proof.
  intros H.
  assert (E : j = 0 \/ j = 1 \/ j = 2 \/ j = 3 \/ j = 4 \/ j = 5 \/ j = 6 \/ j = 7
              \/ j = 8 \/ j = 9 \/ j = 10 \/ j = 11 \/ j = 12 \/ j = 13 \/ j = 14
              \/ j = 15 \/ j = 16 \/ j = 17 \/ j = 18 \/ j = 19) by lia.
  repeat destruct E as [->|E]; try subst j; vm_compute; reflexivity.
Qed.

Lemma roll_in_range (N : positive) (u : JS.number) :
  digits N <= 52 -> 2 ^ (digits N - 1) < Zpos N -> Zpos N <= 20 ->
  unit_interval u ->
  exists k, 1 <= k <= Zpos N /\ (JS.Math_floor (u * #(Zpos N)) + #1)%js = #k%js.
Proof.
  intros HdN HN H20 Hu.
  assert (Ecanon : #(Zpos N)%js = canon N).
  { apply num_canon. apply pos_lt_pow_digits. lia. }
  rewrite Ecanon.
  destruct u as [s| s | |s m e].
  - exists 1. split; [lia|]. reflexivity.
  - destruct Hu as (_ & H0 & H1). destruct s; vm_compute in H0, H1; discriminate.
  - destruct Hu as (_ & _ & H1). vm_compute in H1. discriminate.
  - destruct (unit_interval_finite _ _ _ Hu) as (-> & _).
    destruct (floor_mul_unit N m e HdN HN Hu) as (j & Hj & ->).
    exists (j + 1). split; [lia|]. apply add_one. lia.
Qed.

Lemma d6_result_in_range (u : JS.number) :
  unit_interval u -> exists k, 1 <= k <= 6 /\ D6Dice.result u = #k%js.
Proof.
  intros Hu. apply (roll_in_range 6 u); [vm_compute; discriminate|reflexivity|lia|assumption].
Qed.

Lemma d20_result_in_range (u : JS.number) :
  unit_interval u -> exists k, 1 <= k <= 20 /\ D20Dice.result u = #k%js.
Proof.
  intros Hu. apply (roll_in_range 20 u); [vm_compute; discriminate|reflexivity|lia|assumption].
Qed.

Lemma unit_interval_half : unit_interval (JS.dec 5 10).
Proof. repeat split; vm_compute; reflexivity. Defined.

(** C5.  For each die, when [Math.random()] returns a number of [0, 1),
    the completion callback stores in [rollValue] the value
    [Math.floor(Math.random() * N) + 1] of that draw, and this value is an
    integer of [1, N], for N = 6 and N = 20. *)
Theorem outcome_in_range (random : JS.number) (s6 : D6Dice.state) (s20 : D20Dice.state)
    (onRollComplete : bool) :
  unit_interval random ->
  (exists k, 1 <= k <= 6 /\
     (JS.Math_floor (random * #6) + #1)%js = #k%js /\
     D6Dice.rollValue (fst (D6Dice.timeout onRollComplete random s6))
     = Some (JS.Math_floor (random * #6) + #1)%js) /\
  (exists k, 1 <= k <= 20 /\
     (JS.Math_floor (random * #20) + #1)%js = #k%js /\
     D20Dice.rollValue (fst (D20Dice.timeout random s20))
     = Some (JS.Math_floor (random * #20) + #1)%js).
Proof.
  intros Hu. split.
  - destruct (d6_result_in_range random Hu) as (k & Hk & E). exists k.
    split; [assumption|]. split; [exact E|]. reflexivity.
  - destruct (d20_result_in_range random Hu) as (k & Hk & E). exists k.
    split; [assumption|]. split; [exact E|].
    unfold D20Dice.timeout. fold (D20Dice.result random).
    destruct (D20Dice.meshRef s20); [|reflexivity].
    destruct (JS.array_get _ _); reflexivity.
Qed.

Lemma outcome_in_range_witness :
  unit_interval (JS.dec 5 10) /\
  exists k, 1 <= k <= 20 /\
    D20Dice.rollValue
      (fst (D20Dice.timeout (JS.dec 5 10) (D20Dice.mk true None None))) = Some #k%js.
Proof.
  split; [exact unit_interval_half|].
  destruct (outcome_in_range (JS.dec 5 10)
              (D6Dice.mk true None false None None false false)
              (D20Dice.mk true None None) true unit_interval_half)
    as [_ (k & Hk & Ek & E)].
  exists k. split; [exact Hk|]. rewrite E, Ek. reflexivity.
Defined.

Lemma d20_table_total (k : Z) :
  1 <= k <= 20 -> exists r, orientationOf d20 #k%js = Some r.
Proof.
  intros H.
  assert (E : k = 1 \/ k = 2 \/ k = 3 \/ k = 4 \/ k = 5 \/ k = 6 \/ k = 7 \/ k = 8
              \/ k = 9 \/ k = 10 \/ k = 11 \/ k = 12 \/ k = 13 \/ k = 14 \/ k = 15
              \/ k = 16 \/ k = 17 \/ k = 18 \/ k = 19 \/ k = 20) by lia.
  repeat destruct E as [->|E]; try subst k; vm_compute; eexists; reflexivity.
Qed.

Lemma d6_table_total (k : Z) :
  1 <= k <= 6 -> exists r, orientationOf d6 #k%js = Some r.
Proof.
  intros H.
  assert (E : k = 1 \/ k = 2 \/ k = 3 \/ k = 4 \/ k = 5 \/ k = 6) by lia.
  repeat destruct E as [->|E]; try subst k; vm_compute; eexists; reflexivity.
Qed.

(** C7.  The face-orientation lookup is total over the outcomes 1..N of
    each die (N = 20 or 6): every outcome indexes an entry of the table.
    It is a function of the outcome alone: whatever the state of the
    component, a completion with that outcome snaps the twenty-sided mesh
    to, and aims the six-sided die at, that same entry. *)
Theorem orientationOf_total_deterministic (d : DiceType) (k : Z) :
  1 <= k <= faces d ->
  exists r,
    orientationOf d #k%js = Some r /\
    match d with
    | d20 =>
        forall random s r0, D20Dice.result random = #k%js ->
          D20Dice.meshRef s = Some r0 ->
          D20Dice.meshRef (fst (D20Dice.timeout random s)) = Some r
    | d6 =>
        forall random s onRollComplete, D6Dice.result random = #k%js ->
          D6Dice.targetRotation (fst (D6Dice.timeout onRollComplete random s)) = Some r
    end.
Proof.
  intros Hk. destruct d; cbn [faces] in Hk.
  - destruct (d20_table_total k Hk) as [r Hr]. exists r. split; [assumption|].
    intros random s r0 E Hm. unfold D20Dice.timeout. rewrite Hm, E.
    cbn [orientationOf] in Hr. rewrite Hr. reflexivity.
  - destruct (d6_table_total k Hk) as [r Hr]. exists r. split; [assumption|].
    intros random s b E. unfold D6Dice.timeout. cbn [fst D6Dice.targetRotation].
    rewrite E. exact Hr.
Qed.

Lemma orientationOf_total_deterministic_witness :
  1 <= 6 <= faces d6 /\ exists r, orientationOf d6 #6%js = Some r.
Proof.
  split; [cbn; lia|].
  destruct (orientationOf_total_deterministic d6 6 ltac:(cbn; lia)) as (r & Hr & _).
  exists r. exact Hr.
Defined.

Lemma d20_resultText_of (rolling : bool) (mesh : option Three.Euler) (k : Z) :
  1 <= k <= 20 ->
  D20Dice.resultText (D20Dice.mk rolling (Some #k%js) mesh)
  = if rolling then NoText
    else Text (if k =? 20 then "CRITICAL HIT!"
               else if k =? 1 then "CRITICAL FAIL!"
               else "Rolled: " +:+ pretty k).
Proof.
  intros H.
  assert (E : k = 1 \/ k = 2 \/ k = 3 \/ k = 4 \/ k = 5 \/ k = 6 \/ k = 7 \/ k = 8
              \/ k = 9 \/ k = 10 \/ k = 11 \/ k = 12 \/ k = 13 \/ k = 14 \/ k = 15
              \/ k = 16 \/ k = 17 \/ k = 18 \/ k = 19 \/ k = 20) by lia.
  destruct rolling;
    repeat destruct E as [->|E]; try subst k; vm_compute; reflexivity.
Qed.

(** C8.  For the twenty-sided die with an outcome [k] of 1..20 set, the
    result text is a function of the outcome: nothing while rolling, and
    otherwise "CRITICAL HIT!" for 20, "CRITICAL FAIL!" for 1 and
    "Rolled: k" for the others; with no outcome set nothing is shown. *)
Theorem d20_result_text (s : D20Dice.state) (k : Z) :
  1 <= k <= 20 -> D20Dice.rollValue s = Some #k%js ->
  D20Dice.resultText s
  = (if D20Dice.isRolling s then NoText
     else Text (if k =? 20 then "CRITICAL HIT!"
                else if k =? 1 then "CRITICAL FAIL!"
                else "Rolled: " +:+ pretty k))
  /\ D20Dice.resultText (D20Dice.mk (D20Dice.isRolling s) None (D20Dice.meshRef s)) = NoText.
Proof.
  intros Hk Hv. split.
  - destruct s as [rolling v mesh]. cbn [D20Dice.rollValue D20Dice.isRolling] in *.
    subst v. apply d20_resultText_of. assumption.
  - reflexivity.
Qed.

Lemma d20_result_text_witness :
  D20Dice.resultText (D20Dice.mk false (Some #7%js) None) = Text "Rolled: 7".
Proof.
  exact (proj1 (d20_result_text (D20Dice.mk false (Some #7%js) None) 7
                  ltac:(lia) eq_refl)).
Defined.

Lemma close_enough_spec (r t : Three.Euler) :
  D6Dice.close_enough r t
  = within_threshold (Three.x r) (Three.x t)
    && within_threshold (Three.y r) (Three.y t)
    && within_threshold (Three.z r) (Three.z t).
Proof. reflexivity. Qed.

(** C6.  In the Settling phase of the six-sided die, a frame replaces
    every axis of the rotation by [lerp(current, target, 25 * delta)]; the
    die leaves Settling for Resolved exactly when the three eased axes are
    all within 0.1 of the target, and the rotation is then set to the
    target itself. *)
Theorem settling_frame (delta : JS.number) (s : D6Dice.state) (r t : Three.Euler) :
  D6Dice.phase s = Settling ->
  JS.truthy (D6Dice.rollValue s) = true ->
  D6Dice.meshRef s = Some r ->
  D6Dice.targetRotation s = Some t ->
  let r' := eased delta r t in
  let close := within_threshold (Three.x r') (Three.x t)
               && within_threshold (Three.y r') (Three.y t)
               && within_threshold (Three.z r') (Three.z t) in
  let s' := fst (D6Dice.useFrame delta s) in
  Three.x r' = Three.lerp (Three.x r) (Three.x t) (#25 * delta)%js /\
  Three.y r' = Three.lerp (Three.y r) (Three.y t) (#25 * delta)%js /\
  Three.z r' = Three.lerp (Three.z r) (Three.z t) (#25 * delta)%js /\
  D6Dice.meshRef s' = Some (if close then t else r') /\
  D6Dice.phase s' = (if close then Resolved else Settling).
Proof.
  intros Hp Hv Hm Ht. cbn zeta.
  destruct s as [rolling v settling target mesh rs ss].
  unfold D6Dice.phase in Hp. cbn in Hp, Hv, Hm, Ht. subst mesh target.
  destruct rolling; [discriminate|]. destruct settling; [|destruct (JS.truthy v); discriminate].
  assert (E : D6Dice.useFrame delta (D6Dice.mk false v true (Some t) (Some r) rs ss)
              = if D6Dice.close_enough (eased delta r t) t
                then (D6Dice.mk false v false (Some t) (Some t) rs true,
                      [Play D6Dice.SETTLE_SOUND_PATH (JS.dec 5 100) (Some (JS.dec 25 100))])
                else (D6Dice.mk false v true (Some t) (Some (eased delta r t)) rs ss, []))
    by reflexivity.
  rewrite E, close_enough_spec. clear E.
  repeat split;
    destruct (within_threshold _ _ && within_threshold _ _ && within_threshold _ _);
    try reflexivity; unfold D6Dice.phase; cbn; rewrite Hv; reflexivity.
Qed.

Lemma settling_frame_witness :
  D6Dice.phase
    (fst (D6Dice.useFrame (JS.dec 16 1000)
            (D6Dice.mk false (Some #1%js) true
               (Some (Three.euler #0%js #0%js #0%js))
               (Some (Three.euler #0%js #0%js #0%js)) true false)))
  = Resolved.
Proof.
  pose proof (settling_frame (JS.dec 16 1000)
                (D6Dice.mk false (Some #1%js) true
                   (Some (Three.euler #0%js #0%js #0%js))
                   (Some (Three.euler #0%js #0%js #0%js)) true false)
                (Three.euler #0%js #0%js #0%js) (Three.euler #0%js #0%js #0%js)
                eq_refl eq_refl eq_refl eq_refl) as H.
  cbn zeta in H. destruct H as (_ & _ & _ & _ & H). rewrite H.
  vm_compute. reflexivity.
Defined.

(** * The page *)

Lemma phase_rolling (d : Scene.die) :
  Scene.phase d = Rolling <-> Scene.isRolling d = true.
Proof.
  destruct d as [s|s]; cbn [Scene.phase Scene.isRolling].
  - unfold D20Dice.phase. destruct (D20Dice.isRolling s); [tauto|].
    destruct (JS.truthy _); split; discriminate.
  - unfold D6Dice.phase. destruct (D6Dice.isRolling s); [tauto|].
    destruct (D6Dice.isSettling s); [|destruct (JS.truthy _)]; split; discriminate.
Qed.

Lemma handleClick_rolling (d : Scene.die) :
  Scene.isRolling d = true -> Scene.handleClick d = (d, []).
Proof.
  destruct d as [s|s]; cbn [Scene.isRolling Scene.handleClick]; intros H.
  - unfold D20Dice.handleClick. rewrite H. reflexivity.
  - unfold D6Dice.handleClick. rewrite H. reflexivity.
Qed.

(** C2, as the code has it.  In the Rolling phase of either die a click
    is ignored: the state of the die, and with it outcome and phase, is
    unchanged, no timer is scheduled, and the whole page stays as it is. *)
Theorem click_while_rolling_ignored (p : Page.page) :
  Scene.phase (Page.dice p) = Rolling ->
  Scene.handleClick (Page.dice p) = (Page.dice p, []) /\ Page.step Page.Click p = p.
Proof.
  intros H. apply phase_rolling in H. pose proof (handleClick_rolling _ H) as E.
  split; [exact E|]. unfold Page.step. rewrite E. cbn [Page.notify Page.scheduled fold_left flat_map].
  rewrite app_nil_r. destruct p; reflexivity.
Qed.

Lemma click_while_rolling_ignored_witness :
  Page.step Page.Click (Page.run [Page.Click] Page.init) = Page.run [Page.Click] Page.init.
Proof.
  exact (proj2 (click_while_rolling_ignored (Page.run [Page.Click] Page.init) eq_refl)).
Defined.

(** C2, as the specification has it, fails in the Settling phase: on the
    page reached by choosing the six-sided die, clicking it and letting
    its timer fire, the die is Settling with no timer pending; a click
    then clears the outcome, starts Rolling and schedules a timer. *)
Lemma click_while_settling_not_ignored :
  Scene.phase (Page.dice d6_settling) = Settling /\ Page.timers d6_settling = [] /\
  Scene.phase (Page.dice (Page.step Page.Click d6_settling)) = Rolling /\
  length (Page.timers (Page.step Page.Click d6_settling)) = 1%nat /\
  Page.step Page.Click d6_settling <> d6_settling.
Proof.
  repeat split; try (vm_compute; reflexivity).
  intros E. apply (f_equal Page.timers) in E. vm_compute in E. discriminate E.
Qed.

Lemma notify_nil (a : App.state) : Page.notify [] a = a.
Proof. reflexivity. Qed.

Lemma d20_timeout_effects (random : JS.number) (s : D20Dice.state) :
  snd (D20Dice.timeout random s) = [] \/ snd (D20Dice.timeout random s) = [Throw].
Proof.
  unfold D20Dice.timeout. destruct (D20Dice.meshRef s); [|left; reflexivity].
  destruct (JS.array_get _ _); [left|right]; reflexivity.
Qed.

Lemma d6_timeout_effects (random : JS.number) (s : D6Dice.state) :
  snd (D6Dice.timeout true random s) = [OnRollComplete (D6Dice.result random)].
Proof. reflexivity. Qed.

(** C1, for the twenty-sided die the code does not do it.  The completion
    callback of [D20Dice] never calls [onRollComplete], whatever the state
    and the draw, while the one of [D6Dice] calls it once with the outcome;
    after a click on the initial twenty-sided die and the firing of its
    timer the die holds the outcome 11 and the overlay has received
    nothing. *)
Theorem d20_completion_never_notifies (random v : JS.number) (s : D20Dice.state)
    (s6 : D6Dice.state) :
  ~ In (OnRollComplete v) (snd (D20Dice.timeout random s)) /\
  snd (D6Dice.timeout true random s6) = [OnRollComplete (D6Dice.result random)] /\
  Scene.phase (Page.dice d20_rolled) = Resolved /\
  (exists s', Page.dice d20_rolled = Scene.D20 s' /\ D20Dice.rollValue s' = Some #11%js) /\
  App.displayValue (Page.app d20_rolled) = None.
Proof.
  split; [|split; [reflexivity|]].
  - destruct (d20_timeout_effects random s) as [-> | ->]; cbn; intuition discriminate.
  - split; [vm_compute; reflexivity|]. split; [|vm_compute; reflexivity].
    eexists. split; vm_compute; reflexivity.
Qed.

Lemma unmounted_timeout_effects (random : JS.number) (k : DiceType) :
  snd (Scene.timeout random (Scene.unmounted k))
  = match k with
    | d20 => []
    | d6 => [OnRollComplete (D6Dice.result random)]
    end.
Proof. destruct k; reflexivity. Qed.

Lemma step_stale_timer (p : Page.page) (i : nat) (k : DiceType)
    (rest : list (nat * DiceType)) (random : JS.number) :
  Page.timers p = (i, k) :: rest -> i <> Page.live p ->
  Page.step (Page.TimerFires random) p
  = Page.mk (match k with
             | d20 => Page.app p
             | d6 => App.handleRollComplete (D6Dice.result random) (Page.app p)
             end)
            (Page.live p) (Page.dice p) rest (Page.fresh p).
Proof.
  intros Ht Hi. unfold Page.step. rewrite Ht.
  apply Nat.eqb_neq in Hi. rewrite Hi, unmounted_timeout_effects.
  destruct k; reflexivity.
Qed.

(** C4, as the code has it.  Nothing cancels a pending timer: when the
    timer of an unmounted die instance fires, the mounted die is left as
    it is; the callback of an unmounted six-sided die still calls
    [onRollComplete], which sets the overlay's display value to its
    outcome and the multiplier to 1, and the callback of an unmounted
    twenty-sided die changes nothing. *)
Theorem stale_timer_reaches_overlay (p : Page.page) (i : nat) (k : DiceType)
    (rest : list (nat * DiceType)) (random : JS.number) :
  Page.timers p = (i, k) :: rest -> i <> Page.live p ->
  let p' := Page.step (Page.TimerFires random) p in
  Page.dice p' = Page.dice p /\ Page.live p' = Page.live p /\ Page.timers p' = rest /\
  overlay (Page.app p')
  = match k with
    | d20 => overlay (Page.app p)
    | d6 => (Some (D6Dice.result random), #1%js)
    end.
Proof.
  intros Ht Hi. cbv zeta. rewrite (step_stale_timer p i k rest random Ht Hi).
  cbn [Page.dice Page.live Page.timers Page.app]. repeat split. destruct k; reflexivity.
Qed.

Lemma stale_timer_reaches_overlay_witness :
  overlay (Page.app (Page.step (Page.TimerFires (JS.dec 5 10)) switched_in_flight))
  = (Some (D6Dice.result (JS.dec 5 10)), #1%js).
Proof.
  exact (proj2 (proj2 (proj2
    (stale_timer_reaches_overlay switched_in_flight
       1%nat d6 [] (JS.dec 5 10) eq_refl ltac:(vm_compute; lia))))).
Defined.

(** C4, as the specification has it, fails: the six-sided die is chosen
    and clicked, the twenty-sided die is chosen while the roll is in
    flight, and the timer of the unmounted die then gives the overlay the
    display value 4. *)
Lemma stale_roll_leaks_into_overlay :
  Page.timers switched_in_flight = [(1%nat, d6)] /\
  Page.live switched_in_flight = 2%nat /\
  App.displayValue (Page.app switched_in_flight) = None /\
  App.displayValue
    (Page.app (Page.step (Page.TimerFires (JS.dec 5 10)) switched_in_flight))
  = Some #4%js.
Proof. repeat split; vm_compute; reflexivity. Qed.

Lemma notify_silent (effs : list effect) (a : App.state) :
  (forall v, ~ In (OnRollComplete v) effs) -> Page.notify effs a = a.
Proof.
  revert a. induction effs as [|e effs IH]; intros a H; [reflexivity|].
  cbn [Page.notify fold_left]. destruct e as [ms|v|src ct vol|].
  2: { exfalso. apply (H v). left. reflexivity. }
  all: apply IH; intros v Hin; apply (H v); right; exact Hin.
Qed.

Lemma handleClick_silent (d : Scene.die) (v : JS.number) :
  ~ In (OnRollComplete v) (snd (Scene.handleClick d)).
Proof.
  destruct d as [s|s]; cbn [Scene.handleClick].
  - unfold D20Dice.handleClick. destruct (D20Dice.isRolling s); cbn; intuition discriminate.
  - unfold D6Dice.handleClick. destruct (D6Dice.isRolling s); cbn; intuition discriminate.
Qed.

Lemma useFrame_silent (delta : JS.number) (d : Scene.die) (v : JS.number) :
  ~ In (OnRollComplete v) (snd (Scene.useFrame delta d)).
Proof.
  destruct d as [s|s]; cbn [Scene.useFrame]; [cbn; tauto|].
  unfold D6Dice.useFrame.
  destruct (D6Dice.meshRef s); [|cbn; tauto].
  destruct (D6Dice.isSettling s); [|cbn; tauto].
  destruct (D6Dice.targetRotation s); [|cbn; intuition discriminate].
  destruct (D6Dice.close_enough _ _); cbn; intuition discriminate.
Qed.

Lemma step_click_app (p : Page.page) : Page.app (Page.step Page.Click p) = Page.app p.
Proof.
  unfold Page.step. pose proof (handleClick_silent (Page.dice p)) as H.
  destruct (Scene.handleClick (Page.dice p)) as [d effs]. cbn [Page.app snd] in *.
  apply notify_silent. exact H.
Qed.

Lemma step_frame_app (delta : JS.number) (p : Page.page) :
  Page.app (Page.step (Page.Frame delta) p) = Page.app p.
Proof.
  unfold Page.step. pose proof (useFrame_silent delta (Page.dice p)) as H.
  destruct (Scene.useFrame delta (Page.dice p)) as [d effs]. cbn [Page.app snd] in *.
  apply notify_silent. exact H.
Qed.

Lemma step_select_overlay (d : DiceType) (p : Page.page) :
  overlay (Page.app (Page.step (Page.SelectDice d) p)) = overlay (Page.app p).
Proof.
  unfold Page.step. destruct d, (App.selectedDice (Page.app p)); reflexivity.
Qed.

Lemma scene_timeout_overlay (random : JS.number) (d : Scene.die) (a : App.state) :
  overlay (Page.notify (snd (Scene.timeout random d)) a) = overlay a
  \/ exists v, overlay (Page.notify (snd (Scene.timeout random d)) a) = (Some v, #1%js).
Proof.
  destruct d as [s|s]; cbn [Scene.timeout].
  - left. pose proof (d20_timeout_effects random s) as H.
    destruct (D20Dice.timeout random s) as [s' effs]. cbn [snd] in *.
    destruct H as [-> | ->]; reflexivity.
  - right. exists (D6Dice.result random). reflexivity.
Qed.

Lemma step_timer_overlay (random : JS.number) (p : Page.page) :
  overlay (Page.app (Page.step (Page.TimerFires random) p)) = overlay (Page.app p)
  \/ exists v, overlay (Page.app (Page.step (Page.TimerFires random) p)) = (Some v, #1%js).
Proof.
  unfold Page.step. destruct (Page.timers p) as [|[i k] rest]; [left; reflexivity|].
  destruct (Nat.eqb i (Page.live p)).
  - pose proof (scene_timeout_overlay random (Page.dice p) (Page.app p)) as H.
    destruct (Scene.timeout random (Page.dice p)) as [d effs]. exact H.
  - exact (scene_timeout_overlay random (Scene.unmounted k) (Page.app p)).
Qed.

(** C9.  Choosing a die, of the other type or of the same, leaves the
    overlay's display value and multiplier as they are.  Of all the
    events of the page only the overlay's own two buttons and the firing
    of a roll's timer change them, and a timer that changes them sets the
    display value to an outcome and the multiplier to 1. *)
Theorem die_switch_keeps_overlay (p : Page.page) (d : DiceType) (ev : Page.event) :
  overlay (Page.app (Page.step (Page.SelectDice d) p)) = overlay (Page.app p) /\
  overlay (App.setSelectedDice d (Page.app p)) = overlay (Page.app p) /\
  (overlay (Page.app (Page.step ev p)) = overlay (Page.app p)
   \/ (exists random v, ev = Page.TimerFires random
                        /\ overlay (Page.app (Page.step ev p)) = (Some v, #1%js))
   \/ (exists factor, ev = Page.Multiply factor)
   \/ ev = Page.ResetMultiplier).
Proof.
  split; [apply step_select_overlay|]. split; [reflexivity|].
  destruct ev as [|delta|random|d'|factor|].
  - left. rewrite step_click_app. reflexivity.
  - left. rewrite step_frame_app. reflexivity.
  - destruct (step_timer_overlay random p) as [H|[v H]]; [left; exact H|].
    right; left. exists random, v. split; [reflexivity|exact H].
  - left. apply step_select_overlay.
  - right; right; left. exists factor. reflexivity.
  - right; right; right. reflexivity.
Qed.

(** * The multiplier overlay *)

Lemma round_trip_exact (v : Z) (fs : list Z) (s0 : App.state) :
  1 <= v -> Forall (fun f => 1 <= f) fs -> v * product fs < 2 ^ 53 ->
  App.handleResetMultiplier (multiplied fs (App.handleRollComplete #v%js s0))
  = App.mk (Some #v%js) #1%js (App.selectedDice s0).
Proof.
  intros Hv Hfs Hb.
  pose proof (product_pos fs Hfs) as Hp.
  unfold App.handleRollComplete.
  pose proof (multiplied_exact fs v 1 (App.selectedDice s0) Hv ltac:(lia) Hfs) as E.
  rewrite !Z.mul_1_l, Z.mul_1_r in E. rewrite E by assumption. clear E.
  unfold App.handleResetMultiplier. cbn [App.displayValue App.multiplier App.selectedDice].
  rewrite num_gt_1 by nia.
  destruct (Z.ltb_spec 1 (product fs)) as [Hgt|Hle].
  - rewrite num_div by lia. reflexivity.
  - assert (Ep : product fs = 1) by lia. rewrite Ep, Z.mul_1_r. reflexivity.
Qed.

(** C3, as the code has it.  After a roll has set the display value to
    an outcome [v], any sequence of multiplications by positive integers
    whose product with [v] stays below 2^53 is undone by the reset: the
    display value is [v] again and the multiplier is 1.  (Beyond 2^53 the
    products are rounded and the quotient need not be [v].) *)
Theorem multiplier_round_trip_in_range (v : Z) (fs : list Z) (s0 : App.state) :
  1 <= v -> Forall (fun f => 1 <= f) fs -> v * product fs < 2 ^ 53 ->
  let s := App.handleResetMultiplier (multiplied fs (App.handleRollComplete #v%js s0)) in
  App.displayValue s = Some #v%js /\ App.multiplier s = #1%js.
Proof.
  intros Hv Hfs Hb. cbv zeta. rewrite round_trip_exact by assumption. split; reflexivity.
Qed.

Lemma multiplier_round_trip_in_range_witness :
  App.displayValue
    (App.handleResetMultiplier (multiplied [2; 3] (App.handleRollComplete #6%js App.init)))
  = Some #6%js.
Proof.
  exact (proj1 (multiplier_round_trip_in_range 6 [2; 3] App.init ltac:(lia)
                  ltac:(repeat constructor; lia) ltac:(vm_compute; reflexivity))).
Defined.

(** C3, as the specification has it, fails: a roll of 3, the x5 button
    pressed twenty-three times, then the reset: 3 * 5^23 is above 2^53,
    the products are rounded, and the quotient is not 3. *)
Lemma multiplier_round_trip_rounds :
  App.displayValue
    (App.handleResetMultiplier
       (multiplied (repeat 5 23) (App.handleRollComplete #3%js App.init)))
  <> Some #3%js.
Proof. vm_compute. discriminate. Qed.

Lemma integer_value_num (m : Z) : 1 <= m < 2 ^ 53 -> JS.integer_value #m%js = Some m.
Proof.
  intros [H1 H2]. destruct m as [|p|p]; try lia.
  rewrite num_canon by assumption. unfold canon, JS.integer_value.
  pose proof (digits_le_53 p H2) as Hd. pose proof (digits_pos p) as Hd1.
  destruct (Z.leb_spec 0 (digits p - 53)) as [Hge|Hlt].
  - replace (53 - digits p) with 0 by lia. rewrite shl_spec by lia.
    replace (digits p - 53) with 0 by lia. cbn [cond_Zopp]. f_equal. simpl. lia.
  - rewrite shl_spec by lia. replace (- (digits p - 53)) with (53 - digits p) by lia.
    assert (Hpow : 2 ^ (53 - digits p) <> 0) by (pose proof (pow2_pos (53 - digits p)); lia).
    rewrite Z.mod_mul by assumption. cbn [Z.eqb cond_Zopp].
    rewrite Z.div_mul by assumption. reflexivity.
Qed.

Lemma factor_bounds (f : Z) : f ∈ App.factors -> 2 <= f <= 6.
Proof.
  intros H. apply list_elem_of_In in H. cbn in H.
  repeat destruct H as [<-|H]; lia.
Qed.

Lemma tracks_apply (o : Overlay.op) (ops : list Overlay.op) (outcome : option Z) (m : Z)
    (s : App.state) :
  Overlay.tracks outcome m s -> Overlay.in_range outcome m (o :: ops) = true ->
  exists m', Overlay.tracks (Overlay.last_outcome [o] outcome) m' (Overlay.apply o s)
             /\ Overlay.in_range (Overlay.last_outcome [o] outcome) m' ops = true.
Proof.
  intros (Hm & Emul & Hd) Hr. destruct o as [v|f|]; cbn [Overlay.in_range] in Hr;
    cbn [Overlay.last_outcome fold_left Overlay.apply].
  - apply andb_true_iff in Hr as [Hr Hrest]. apply andb_true_iff in Hr as [Hv1 Hv2].
    apply Z.leb_le in Hv1. apply Z.ltb_lt in Hv2.
    exists 1. split; [|exact Hrest].
    unfold Overlay.tracks, App.handleRollComplete. cbn [App.displayValue App.multiplier].
    rewrite Z.mul_1_r. repeat split; try lia.
  - apply andb_true_iff in Hr as [Hf Hrest]. apply bool_decide_eq_true in Hf.
    apply factor_bounds in Hf.
    destruct outcome as [v|].
    + destruct Hd as (Hv & Hb & Ed).
      apply andb_true_iff in Hrest as [Hb' Hrest]. apply Z.ltb_lt in Hb'.
      exists (m * f). split; [|exact Hrest].
      unfold Overlay.tracks, App.handleMultiply. rewrite Ed, Emul.
      cbn [App.displayValue App.multiplier].
      assert (Hvm : v * m * f < 2 ^ 53) by (replace (v * m * f) with (v * (m * f)) by ring; exact Hb').
      rewrite !num_mul by nia.
      replace (v * m * f) with (v * (m * f)) by ring.
      repeat split; try nia; assumption.
    + destruct Hd as (Ed & ->). exists 1. split; [|exact Hrest].
      unfold Overlay.tracks, App.handleMultiply. rewrite Ed.
      repeat split; try lia; assumption.
  - destruct outcome as [v|].
    + destruct Hd as (Hv & Hb & Ed). exists 1. split; [|exact Hr].
      unfold Overlay.tracks, App.handleResetMultiplier. rewrite Ed, Emul.
      rewrite num_gt_1 by nia.
      destruct (Z.ltb_spec 1 m) as [Hgt|Hle]; cbn [App.displayValue App.multiplier].
      * rewrite num_div by lia. rewrite Z.mul_1_r. repeat split; lia.
      * assert (m = 1) as -> by lia. rewrite Emul, Ed. repeat split; lia.
    + destruct Hd as (Ed & ->). exists 1. split; [|exact Hr].
      unfold Overlay.tracks, App.handleResetMultiplier. rewrite Ed.
      repeat split; try lia; assumption.
Qed.

Lemma tracks_run (ops : list Overlay.op) (outcome : option Z) (m : Z) (s : App.state) :
  Overlay.tracks outcome m s -> Overlay.in_range outcome m ops = true ->
  exists m', Overlay.tracks (Overlay.last_outcome ops outcome) m' (Overlay.run ops s).
Proof.
  revert outcome m s. induction ops as [|o ops IH]; intros outcome m s Ht Hr.
  - exists m. exact Ht.
  - destruct (tracks_apply o ops outcome m s Ht Hr) as (m' & Ht' & Hr').
    exact (IH _ _ _ Ht' Hr').
Qed.

Lemma tracks_invariant (outcome : option Z) (m : Z) (s : App.state) :
  Overlay.tracks outcome m s -> Overlay.invariant outcome s.
Proof.
  intros (Hm & Emul & Hd). split.
  - exists m. split; [assumption|]. rewrite Emul. apply integer_value_num.
    destruct outcome as [v|]; [destruct Hd as (Hv & Hb & _); nia|destruct Hd as (_ & ->); lia].
  - intros d Ed. destruct outcome as [v|].
    + destruct Hd as (Hv & Hb & Ed'). exists v. split; [reflexivity|].
      rewrite Emul, num_mul by nia. congruence.
    + destruct Hd as (Ed' & _). congruence.
Qed.

Lemma tracks_init : Overlay.tracks None 1 App.init.
Proof. repeat split; lia. Qed.

(** C10, as the code has it.  Along every sequence of roll completions
    with positive outcomes, multiplications by the buttons' factors and
    resets, as long as the outcome times the cumulative multiplier stays
    below 2^53: the multiplier is an integer not below 1 and a display
    value that is set equals the last outcome times the multiplier. *)
Theorem overlay_invariant_in_range (ops : list Overlay.op) :
  Overlay.in_range None 1 ops = true ->
  Overlay.invariant (Overlay.last_outcome ops None) (Overlay.run ops App.init).
Proof.
  intros Hr. destruct (tracks_run ops None 1 App.init tracks_init Hr) as (m & Ht).
  exact (tracks_invariant _ _ _ Ht).
Qed.

Lemma overlay_invariant_in_range_witness :
  Overlay.invariant (Some 6)
    (Overlay.run [Overlay.RollComplete 6; Overlay.MultiplyBy 2; Overlay.MultiplyBy 3;
                  Overlay.Reset] App.init).
Proof.
  exact (overlay_invariant_in_range
           [Overlay.RollComplete 6; Overlay.MultiplyBy 2; Overlay.MultiplyBy 3;
            Overlay.Reset] ltac:(vm_compute; reflexivity)).
Defined.

(** C10, as the specification has it, fails: after a roll of 3 and
    twenty-three presses of the x5 button the display value is not 3 times
    the multiplier. *)
Lemma overlay_invariant_rounds :
  ~ Overlay.invariant (Overlay.last_outcome Overlay.three_times_fives None)
      (Overlay.run Overlay.three_times_fives App.init).
Proof.
  intros [_ H].
  destruct (App.displayValue (Overlay.run Overlay.three_times_fives App.init))
    as [d|] eqn:Ed; [|vm_compute in Ed; discriminate Ed].
  destruct (H d eq_refl) as (v & Hv & Hd).
  vm_compute in Hv. injection Hv as <-.
  rewrite Hd in Ed. vm_compute in Ed. discriminate Ed.
Qed.

(** * Further properties of the dice *)

Lemma timeout_stops_rolling (random : JS.number) (d : Scene.die) :
  Scene.isRolling (fst (Scene.timeout random d)) = false.
Proof.
  destruct d as [s|s]; cbn [Scene.timeout].
  - unfold D20Dice.timeout. destruct (D20Dice.meshRef s); [|reflexivity].
    destruct (JS.array_get _ _); reflexivity.
  - reflexivity.
Qed.

Lemma timeout_kind (random : JS.number) (d : Scene.die) :
  Scene.kind (fst (Scene.timeout random d)) = Scene.kind d.
Proof.
  destruct d as [s|s]; cbn [Scene.timeout]; [|reflexivity].
  destruct (D20Dice.timeout random s). reflexivity.
Qed.

Lemma timeout_schedules_nothing (random : JS.number) (d : Scene.die) (i : nat) (k : DiceType) :
  Page.scheduled i k (snd (Scene.timeout random d)) = [].
Proof.
  destruct d as [s|s]; cbn [Scene.timeout]; [|reflexivity].
  pose proof (d20_timeout_effects random s) as H.
  destruct (D20Dice.timeout random s) as [s' effs]. cbn [snd] in *.
  destruct H as [-> | ->]; reflexivity.
Qed.

Lemma handleClick_resting (d : Scene.die) (i : nat) :
  Scene.isRolling d = false ->
  Scene.isRolling (fst (Scene.handleClick d)) = true
  /\ Page.scheduled i (Scene.kind d) (snd (Scene.handleClick d)) = [(i, Scene.kind d)].
Proof.
  destruct d as [s|s]; cbn [Scene.isRolling Scene.handleClick Scene.kind]; intros H.
  - unfold D20Dice.handleClick. rewrite H. split; reflexivity.
  - unfold D6Dice.handleClick. rewrite H. split; reflexivity.
Qed.

Lemma useFrame_isRolling (delta : JS.number) (d : Scene.die) :
  Scene.isRolling (fst (Scene.useFrame delta d)) = Scene.isRolling d.
Proof.
  destruct d as [s|s]; cbn [Scene.useFrame Scene.isRolling fst].
  - unfold D20Dice.useFrame. destruct (D20Dice.meshRef s); [|reflexivity].
    destruct (D20Dice.isRolling s) eqn:E; [reflexivity|exact E].
  - unfold D6Dice.useFrame. destruct (D6Dice.meshRef s); [|reflexivity].
    destruct (D6Dice.isSettling s); [|reflexivity].
    destruct (D6Dice.targetRotation s); [|reflexivity].
    destruct (D6Dice.close_enough _ _); reflexivity.
Qed.

Lemma pending_app (p : Page.page) (ts : list (nat * DiceType)) :
  length (List.filter (fun t => Nat.eqb (fst t) (Page.live p)) (Page.timers p ++ ts))
  = (pending p + length (List.filter (fun t => Nat.eqb (fst t) (Page.live p)) ts))%nat.
Proof. unfold pending. rewrite List.filter_app, length_app. reflexivity. Qed.

Lemma no_timer_of_fresh (ts : list (nat * DiceType)) (n : nat) :
  Forall (fun t => (fst t < n)%nat) ts ->
  List.filter (fun t => Nat.eqb (fst t) n) ts = [].
Proof.
  induction 1 as [|t ts Ht _ IH]; [reflexivity|]. cbn [List.filter].
  destruct (Nat.eqb_spec (fst t) n); [lia|exact IH].
Qed.

Lemma step_in_flight (ev : Page.event) (p : Page.page) :
  well_named p -> pending p = in_flight p ->
  well_named (Page.step ev p) /\ pending (Page.step ev p) = in_flight (Page.step ev p).
Proof.
  intros [Hlive Hts] Hp. unfold in_flight in *. destruct ev as [|delta|random|d|factor|].
  - (* Click *)
    cbn [Page.step]. destruct (Scene.isRolling (Page.dice p)) eqn:Er.
    + rewrite (handleClick_rolling _ Er). cbn [Page.scheduled flat_map]. rewrite app_nil_r.
      split; [split; assumption|]. unfold pending. cbn [Page.live Page.timers Page.dice].
      rewrite Er. exact Hp.
    + destruct (handleClick_resting (Page.dice p) (Page.live p) Er) as [Hr Hs].
      destruct (Scene.handleClick (Page.dice p)) as [d effs]. cbn [fst snd] in Hr, Hs.
      rewrite Hs. split.
      * split; cbn [Page.live Page.fresh Page.timers]; [assumption|].
        apply Forall_app. split; [assumption|]. repeat constructor. exact Hlive.
      * unfold pending at 1. cbn [Page.live Page.timers Page.dice]. rewrite Hr.
        rewrite pending_app, Hp. cbn [List.filter fst]. rewrite Nat.eqb_refl. reflexivity.
  - (* Frame *)
    cbn [Page.step]. pose proof (useFrame_isRolling delta (Page.dice p)) as Hr.
    destruct (Scene.useFrame delta (Page.dice p)) as [d effs]. cbn [fst] in Hr.
    split; [split; assumption|]. unfold pending. cbn [Page.live Page.timers Page.dice].
    rewrite Hr. exact Hp.
  - (* TimerFires *)
    cbn [Page.step]. destruct (Page.timers p) as [|[i k] rest] eqn:Et.
    + split; [split; [assumption|rewrite Et; constructor]|]. exact Hp.
    + unfold pending in Hp. rewrite Et in Hp. cbn [List.filter fst] in Hp.
      inversion Hts as [|t ts Hi Hrest]; subst.
      destruct (Nat.eqb i (Page.live p)) eqn:Ei.
      * pose proof (timeout_stops_rolling random (Page.dice p)) as Hr.
        destruct (Scene.timeout random (Page.dice p)) as [d effs]. cbn [fst] in Hr.
        split; [split; assumption|]. unfold pending. cbn [Page.live Page.timers Page.dice].
        rewrite Hr. cbn [length] in Hp. destruct (Scene.isRolling (Page.dice p)); lia.
      * split; [split; assumption|]. unfold pending. cbn [Page.live Page.timers Page.dice].
        exact Hp.
  - (* SelectDice *)
    cbn [Page.step].
    assert (Hsw : well_named (Page.mk (App.setSelectedDice d (Page.app p)) (Page.fresh p)
                                (Scene.mount d) (Page.timers p) (S (Page.fresh p)))
                  /\ pending (Page.mk (App.setSelectedDice d (Page.app p)) (Page.fresh p)
                                (Scene.mount d) (Page.timers p) (S (Page.fresh p)))
                     = (if Scene.isRolling (Scene.mount d) then 1 else 0)%nat).
    { split.
      - split; cbn [Page.live Page.fresh Page.timers]; [lia|].
        eapply Forall_impl; [exact Hts|]. cbn. intros t Ht. lia.
      - unfold pending. cbn [Page.live Page.timers].
        rewrite (no_timer_of_fresh _ _ Hts). destruct d; reflexivity. }
    destruct d, (App.selectedDice (Page.app p)); first [exact Hsw | split; [split; assumption|exact Hp]].
  - split; [split; assumption|exact Hp].
  - split; [split; assumption|exact Hp].
Qed.

Lemma run_in_flight (evs : list Page.event) (p : Page.page) :
  well_named p -> pending p = in_flight p ->
  well_named (Page.run evs p) /\ pending (Page.run evs p) = in_flight (Page.run evs p).
Proof.
  revert p. induction evs as [|ev evs IH]; intros p Hw Hp; [split; assumption|].
  cbn [Page.run fold_left]. destruct (step_in_flight ev p Hw Hp) as [Hw' Hp'].
  exact (IH _ Hw' Hp').
Qed.

(** X1.  At most one roll is in flight: on every page reached from the
    initial one by clicks, frames, timer firings, die choices and presses
    of the overlay's buttons, the mounted die has exactly one pending timer
    while it is rolling and none otherwise. *)
Theorem at_most_one_in_flight (evs : list Page.event) :
  pending (Page.run evs Page.init)
  = if Scene.isRolling (Page.dice (Page.run evs Page.init)) then 1%nat else 0%nat.
Proof.
  apply (run_in_flight evs Page.init).
  - split; [cbn; lia|constructor].
  - reflexivity.
Qed.

(** X2.  With a draw of [0, 1) and the mesh attached, the completion
    callback of the twenty-sided die raises no TypeError: the rotation
    index is always inside the table, the mesh is snapped to the entry of
    the outcome, rolling stops and nothing else happens. *)
Theorem d20_completion_snaps (random : JS.number) (s : D20Dice.state) (r0 : Three.Euler) :
  unit_interval random -> D20Dice.meshRef s = Some r0 ->
  exists k r, 1 <= k <= 20 /\ orientationOf d20 #k%js = Some r /\
    D20Dice.timeout random s = (D20Dice.mk false (Some #k%js) (Some r), []).
Proof.
  intros Hu Hm. destruct (d20_result_in_range random Hu) as (k & Hk & E).
  destruct (d20_table_total k Hk) as [r Hr]. exists k, r.
  split; [assumption|]. split; [assumption|].
  unfold D20Dice.timeout. rewrite Hm, E. cbn [orientationOf] in Hr. rewrite Hr. reflexivity.
Qed.

Lemma d20_completion_snaps_witness :
  exists k r, 1 <= k <= 20 /\ orientationOf d20 #k%js = Some r /\
    D20Dice.timeout (JS.dec 5 10)
      (D20Dice.mk true None (Some (Three.euler #0%js #0%js #0%js)))
    = (D20Dice.mk false (Some #k%js) (Some r), []).
Proof.
  exact (d20_completion_snaps (JS.dec 5 10)
           (D20Dice.mk true None (Some (Three.euler #0%js #0%js #0%js)))
           (Three.euler #0%js #0%js #0%js) unit_interval_half eq_refl).
Defined.

(** X3.  With a draw of [0, 1) the completion callback of the six-sided
    die stores an outcome of 1..6, stops rolling, starts settling towards
    the table entry of that outcome and calls [onRollComplete] once with
    it when the prop is passed; the target is never [undefined], so the
    next frame raises no TypeError. *)
Theorem d6_completion_aims (random delta : JS.number) (s : D6Dice.state)
    (onRollComplete : bool) :
  unit_interval random ->
  exists k r, 1 <= k <= 6 /\ orientationOf d6 #k%js = Some r /\
    D6Dice.timeout onRollComplete random s
    = (D6Dice.mk false (Some #k%js) true (Some r) (D6Dice.meshRef s)
         (D6Dice.rollSound s) (D6Dice.settleSound s),
       if onRollComplete then [OnRollComplete #k%js] else []) /\
    ~ In Throw (snd (D6Dice.useFrame delta (fst (D6Dice.timeout onRollComplete random s)))).
Proof.
  intros Hu. destruct (d6_result_in_range random Hu) as (k & Hk & E).
  destruct (d6_table_total k Hk) as [r Hr]. exists k, r.
  split; [assumption|]. split; [assumption|].
  assert (Et : D6Dice.timeout onRollComplete random s
               = (D6Dice.mk false (Some #k%js) true (Some r) (D6Dice.meshRef s)
                    (D6Dice.rollSound s) (D6Dice.settleSound s),
                  if onRollComplete then [OnRollComplete #k%js] else [])).
  { unfold D6Dice.timeout. rewrite E. cbn [orientationOf] in Hr. rewrite Hr. reflexivity. }
  split; [exact Et|]. rewrite Et. cbn [fst]. unfold D6Dice.useFrame.
  cbn [D6Dice.meshRef D6Dice.isRolling D6Dice.isSettling D6Dice.targetRotation].
  destruct (D6Dice.meshRef s); [|cbn; tauto].
  destruct (D6Dice.close_enough _ _); cbn; intuition discriminate.
Qed.

Lemma d6_completion_aims_witness :
  exists k r, 1 <= k <= 6 /\ orientationOf d6 #k%js = Some r /\
    D6Dice.timeout true (JS.dec 5 10) (D6Dice.mk true None false None None true false)
    = (D6Dice.mk false (Some #k%js) true (Some r) None true false, [OnRollComplete #k%js]).
Proof.
  destruct (d6_completion_aims (JS.dec 5 10) #0%js
              (D6Dice.mk true None false None None true false) true unit_interval_half)
    as (k & r & Hk & Hr & Et & _).
  exists k, r. split; [exact Hk|]. split; [exact Hr|exact Et].
Defined.

(** X4.  A frame leaves a resting die untouched: when a die is neither
    rolling nor settling (Idle or Resolved), or has no mesh, the frame
    callback changes nothing and has no effect, whatever the elapsed
    time. *)
Theorem resting_frame_is_noop (delta : JS.number) (d : Scene.die) :
  Scene.phase d = Idle \/ Scene.phase d = Resolved ->
  Scene.useFrame delta d = (d, []).
Proof.
  intros H. destruct d as [s|s]; cbn [Scene.phase Scene.useFrame] in *.
  - destruct s as [rolling v mesh]. unfold D20Dice.phase, D20Dice.useFrame in *.
    cbn [D20Dice.isRolling D20Dice.meshRef D20Dice.rollValue] in *.
    destruct rolling; [destruct H; discriminate|]. destruct mesh; reflexivity.
  - destruct s as [rolling v settling target mesh rs ss].
    unfold D6Dice.phase, D6Dice.useFrame in *.
    cbn [D6Dice.isRolling D6Dice.isSettling D6Dice.meshRef D6Dice.rollValue] in *.
    destruct rolling; [destruct H; discriminate|].
    destruct settling; [destruct H; discriminate|].
    destruct mesh; reflexivity.
Qed.

Lemma resting_frame_is_noop_witness :
  Scene.useFrame (JS.dec 16 1000) (Scene.mount d6) = (Scene.mount d6, []).
Proof.
  exact (resting_frame_is_noop (JS.dec 16 1000) (Scene.mount d6) (or_introl eq_refl)).
Defined.

(** X5.  A frame of the six-sided die only animates: it never changes the
    outcome, the rolling flag or the target, never schedules a timer and
    never calls [onRollComplete]; its only possible effects are the settle
    sound and the TypeError of an undefined target.  A frame of the
    twenty-sided die changes nothing but the mesh rotation. *)
Theorem frames_only_animate (delta : JS.number) (s6 : D6Dice.state) (s20 : D20Dice.state) :
  D6Dice.rollValue (fst (D6Dice.useFrame delta s6)) = D6Dice.rollValue s6 /\
  D6Dice.isRolling (fst (D6Dice.useFrame delta s6)) = D6Dice.isRolling s6 /\
  D6Dice.targetRotation (fst (D6Dice.useFrame delta s6)) = D6Dice.targetRotation s6 /\
  (snd (D6Dice.useFrame delta s6) = []
   \/ snd (D6Dice.useFrame delta s6) = [Throw]
   \/ snd (D6Dice.useFrame delta s6)
      = [Play D6Dice.SETTLE_SOUND_PATH (JS.dec 5 100) (Some (JS.dec 25 100))]) /\
  D20Dice.rollValue (D20Dice.useFrame delta s20) = D20Dice.rollValue s20 /\
  D20Dice.isRolling (D20Dice.useFrame delta s20) = D20Dice.isRolling s20.
Proof.
  assert (H20 : D20Dice.rollValue (D20Dice.useFrame delta s20) = D20Dice.rollValue s20 /\
                D20Dice.isRolling (D20Dice.useFrame delta s20) = D20Dice.isRolling s20).
  { unfold D20Dice.useFrame. destruct (D20Dice.meshRef s20); [|split; reflexivity].
    destruct (D20Dice.isRolling s20) eqn:E; split; try reflexivity; exact E. }
  destruct H20 as [Ha Hb].
  unfold D6Dice.useFrame. destruct (D6Dice.meshRef s6); [|repeat split; auto].
  destruct (D6Dice.isSettling s6); [|repeat split; auto].
  destruct (D6Dice.targetRotation s6) eqn:Et; [|repeat split; auto].
  destruct (D6Dice.close_enough _ _); repeat split; auto.
Qed.

(** X6.  A second click right after a click changes nothing: after any
    click the die is rolling, so clicking twice schedules the timers of
    one click only. *)
Theorem double_click_is_one_click (d : Scene.die) :
  Scene.handleClick (fst (Scene.handleClick d)) = (fst (Scene.handleClick d), []).
Proof.
  apply handleClick_rolling.
  destruct (Scene.isRolling d) eqn:E.
  - rewrite (handleClick_rolling d E). exact E.
  - exact (proj1 (handleClick_resting d 0%nat E)).
Qed.

(** X7.  A completed roll re-arms the die: whatever the state and the
    draw, after the completion callback the die is not rolling, and the
    next click clears the outcome, starts Rolling and schedules exactly one
    timer of 1500 ms. *)
Theorem completion_rearms_click (random : JS.number) (d : Scene.die) :
  let d' := fst (Scene.timeout random d) in
  Scene.isRolling d' = false /\
  Scene.phase (fst (Scene.handleClick d')) = Rolling /\
  List.filter (fun e => match e with SetTimeout _ => true | _ => false end)
              (snd (Scene.handleClick d'))
  = [SetTimeout #1500%js].
Proof.
  cbv zeta. pose proof (timeout_stops_rolling random d) as H.
  split; [exact H|].
  destruct (fst (Scene.timeout random d)) as [s|s]; cbn [Scene.isRolling Scene.handleClick] in *.
  - unfold D20Dice.handleClick. rewrite H. split; reflexivity.
  - unfold D6Dice.handleClick. rewrite H. split; reflexivity.
Qed.

(** X8.  A new roll clears the display of the previous one: after a click
    on a die that is not rolling, no result text is rendered and the
    material has its default colour, whatever the previous outcome (and,
    for the six-sided die, whatever the [displayValue] prop). *)
Theorem click_clears_result (s20 : D20Dice.state) (s6 : D6Dice.state)
    (displayValue : option JS.number) :
  D20Dice.isRolling s20 = false -> D6Dice.isRolling s6 = false ->
  D20Dice.resultText (fst (D20Dice.handleClick s20)) = NoText /\
  D20Dice.materialColor (fst (D20Dice.handleClick s20)) = "#8b0000" /\
  D6Dice.resultText displayValue (fst (D6Dice.handleClick s6)) = NoText /\
  D6Dice.materialColor (fst (D6Dice.handleClick s6)) = "#8b0000".
Proof.
  intros H20 H6. unfold D20Dice.handleClick, D6Dice.handleClick. rewrite H20, H6.
  repeat split.
Qed.

Lemma click_clears_result_witness :
  D20Dice.resultText (fst (D20Dice.handleClick (D20Dice.mk false (Some #20%js) None)))
  = NoText.
Proof.
  exact (proj1 (click_clears_result (D20Dice.mk false (Some #20%js) None)
                  (D6Dice.mk false None false None None false false) None
                  eq_refl eq_refl)).
Defined.

(** * Further properties of the overlay *)

Lemma SFcompare_swap (x y : spec_float) :
  SFcompare y x = match SFcompare x y with Some c => Some (CompOpp c) | None => None end.
Proof.
  destruct x as [sx|sx| |sx mx ex], y as [sy|sy| |sy my ey]; cbn [SFcompare];
    try (destruct sx; reflexivity); try (destruct sy; reflexivity);
    try (destruct sx, sy; reflexivity); try reflexivity.
  destruct sx, sy; try reflexivity; rewrite (Z.compare_antisym ex ey);
    destruct (ex ?= ey); cbn [CompOpp]; try reflexivity;
    rewrite !Pos.compare_cont_spec, (Pos.compare_antisym mx my);
    destruct (mx ?= my)%positive; reflexivity.
Qed.

Lemma le_not_gt (x y : JS.number) : (x <=? y)%js = true -> (x >? y)%js = false.
Proof.
  unfold JS.le, JS.gt, SFleb, SFltb. rewrite (SFcompare_swap x y).
  destruct (SFcompare x y) as [[| |]|]; cbn; congruence.
Qed.

(** X9.  The reset is idempotent on every state, NaN and infinite
    multipliers included: a second reset changes nothing. *)
Theorem reset_idempotent (s : App.state) :
  App.handleResetMultiplier (App.handleResetMultiplier s) = App.handleResetMultiplier s.
Proof.
  destruct (App.displayValue s) as [v|] eqn:Ev.
  - destruct (App.multiplier s >? #1)%js eqn:Eg.
    + assert (E : App.handleResetMultiplier s
                  = App.mk (Some (v / App.multiplier s)%js) #1%js (App.selectedDice s))
        by (unfold App.handleResetMultiplier; rewrite Ev, Eg; reflexivity).
      rewrite E. reflexivity.
    + assert (E : App.handleResetMultiplier s = s)
        by (unfold App.handleResetMultiplier; rewrite Ev, Eg; reflexivity).
      rewrite !E. reflexivity.
  - assert (E : App.handleResetMultiplier s = s)
      by (unfold App.handleResetMultiplier; rewrite Ev; reflexivity).
    rewrite !E. reflexivity.
Qed.

Lemma apply_unset (o : Overlay.op) (s : App.state) :
  App.displayValue s = None ->
  match o with Overlay.RollComplete _ => True | _ => Overlay.apply o s = s end.
Proof.
  intros E. destruct o as [v|f|]; cbn [Overlay.apply]; [exact I| |].
  - unfold App.handleMultiply. rewrite E. reflexivity.
  - unfold App.handleResetMultiplier. rewrite E. reflexivity.
Qed.

(** X10.  Until a roll has completed the overlay is inert: from a state
    with no display value, and so from the initial state, any sequence of
    multiplications, by any factors, and resets leaves the state as it
    is. *)
Theorem overlay_inert_before_roll (ops : list Overlay.op) (s : App.state) :
  App.displayValue s = None -> Overlay.no_roll ops = true -> Overlay.run ops s = s.
Proof.
  intros E. induction ops as [|o ops IH]; intros Hn; [reflexivity|].
  cbn [Overlay.no_roll forallb] in Hn. apply andb_true_iff in Hn as [Ho Hn].
  cbn [Overlay.run fold_left]. pose proof (apply_unset o s E) as Ha.
  destruct o; [discriminate Ho| |]; rewrite Ha; exact (IH Hn).
Qed.

Lemma overlay_inert_before_roll_witness :
  Overlay.run [Overlay.MultiplyBy 6; Overlay.Reset; Overlay.MultiplyBy 2] App.init = App.init.
Proof.
  exact (overlay_inert_before_roll
           [Overlay.MultiplyBy 6; Overlay.Reset; Overlay.MultiplyBy 2] App.init
           eq_refl eq_refl).
Defined.

(** X11.  A disabled reset button has a handler that does nothing:
    whenever [multiplier <= 1] holds, [handleResetMultiplier] leaves the
    state as it is. *)
Theorem disabled_reset_does_nothing (s : App.state) :
  App.resetDisabled s = true -> App.handleResetMultiplier s = s.
Proof.
  intros H. unfold App.resetDisabled in H. apply le_not_gt in H.
  unfold App.handleResetMultiplier. rewrite H. destruct (App.displayValue s); reflexivity.
Qed.

Lemma disabled_reset_does_nothing_witness :
  App.handleResetMultiplier (App.handleRollComplete #5%js App.init)
  = App.handleRollComplete #5%js App.init.
Proof.
  exact (disabled_reset_does_nothing (App.handleRollComplete #5%js App.init) eq_refl).
Defined.

Lemma product_perm (fs fs' : list Z) : Permutation fs fs' -> product fs = product fs'.
Proof.
  induction 1 as [|f fs fs' _ IH|f g fs|fs fs' fs'' _ IH1 _ IH2]; cbn [product fold_right].
  - reflexivity.
  - fold (product fs) (product fs'). rewrite IH. reflexivity.
  - fold (product fs). ring.
  - congruence.
Qed.

(** X12.  Within 2^53 the order of the multiply presses does not matter:
    after a roll of [v], two sequences of positive factors that are
    permutations of each other, with [v] times their product below 2^53,
    lead to the same state. *)
Theorem multiply_order_irrelevant (v : Z) (fs fs' : list Z) (s0 : App.state) :
  1 <= v -> Forall (fun f => 1 <= f) fs -> Permutation fs fs' ->
  v * product fs < 2 ^ 53 ->
  multiplied fs (App.handleRollComplete #v%js s0)
  = multiplied fs' (App.handleRollComplete #v%js s0).
Proof.
  intros Hv Hfs Hperm Hb.
  assert (Hfs' : Forall (fun f => 1 <= f) fs') by (rewrite <- Hperm; exact Hfs).
  pose proof (product_perm fs fs' Hperm) as Ep.
  unfold App.handleRollComplete.
  pose proof (multiplied_exact fs v 1 (App.selectedDice s0) Hv ltac:(lia) Hfs) as E.
  pose proof (multiplied_exact fs' v 1 (App.selectedDice s0) Hv ltac:(lia) Hfs') as E'.
  rewrite !Z.mul_1_l, Z.mul_1_r in E, E'.
  rewrite E by assumption. rewrite E' by (rewrite <- Ep; assumption).
  rewrite Ep. reflexivity.
Qed.

Lemma multiply_order_irrelevant_witness :
  multiplied [2; 3; 5] (App.handleRollComplete #4%js App.init)
  = multiplied [5; 2; 3] (App.handleRollComplete #4%js App.init).
Proof.
  apply (multiply_order_irrelevant 4 [2; 3; 5] [5; 2; 3] App.init).
  - lia.
  - repeat constructor; lia.
  - symmetry. apply (Permutation_cons_app [2; 3] [] 5). reflexivity.
  - vm_compute. reflexivity.
Defined.

Lemma product_buttons (fs : list Z) :
  Forall (fun f => f ∈ App.factors) fs -> 1 <= product fs <= 6 ^ Z.of_nat (length fs).
Proof.
  induction 1 as [|f fs Hf _ IH]; [cbn; lia|].
  apply factor_bounds in Hf. cbn [product fold_right length]. fold (product fs).
  rewrite Nat2Z.inj_succ, Z.pow_succ_r by lia. nia.
Qed.

(** X13.  Eighteen presses are always safe: for every outcome a die can
    give (1..20) and every sequence of at most 18 presses of the multiply
    buttons, the reset restores the outcome exactly and sets the
    multiplier to 1. *)
Theorem eighteen_presses_round_trip (v : Z) (fs : list Z) (s0 : App.state) :
  1 <= v <= 20 -> Forall (fun f => f ∈ App.factors) fs -> (length fs <= 18)%nat ->
  App.handleResetMultiplier (multiplied fs (App.handleRollComplete #v%js s0))
  = App.mk (Some #v%js) #1%js (App.selectedDice s0).
Proof.
  intros Hv Hfs Hlen. pose proof (product_buttons fs Hfs) as [Hp1 Hp2].
  apply round_trip_exact; [lia| |].
  - eapply Forall_impl; [exact Hfs|]. cbn. intros f Hf. apply factor_bounds in Hf. lia.
  - assert (H18 : 6 ^ Z.of_nat (length fs) <= 6 ^ 18) by (apply Z.pow_le_mono_r; lia).
    change (6 ^ 18) with 101559956668416 in H18.
    change (2 ^ 53) with 9007199254740992. nia.
Qed.

Lemma eighteen_presses_round_trip_witness :
  App.handleResetMultiplier
    (multiplied (repeat 6 18) (App.handleRollComplete #20%js App.init))
  = App.mk (Some #20%js) #1%js d20.
Proof.
  apply (eighteen_presses_round_trip 20 (repeat 6 18) App.init).
  - lia.
  - apply Forall_forall. intros f Hf. apply list_elem_of_In in Hf.
    apply repeat_spec in Hf. subst f. apply list_elem_of_In. cbn. tauto.
  - cbn. lia.
Defined.

Lemma Number_toString_num (n : Z) :
  1 <= n < 2 ^ 53 -> JS.Number_toString #n%js = Some (pretty n).
Proof.
  intros Hn. pose proof (integer_value_num n Hn) as Ei.
  destruct n as [|p|p]; try lia. rewrite num_canon in * by lia.
  unfold JS.Number_toString. unfold canon in *. rewrite Ei.
  replace (Z.abs (Zpos p) <? 2 ^ 53) with true; [reflexivity|].
  symmetry. apply Z.ltb_lt. lia.
Qed.

Lemma d6_resultText_of (displayValue : option JS.number) (k : Z)
    (target mesh : option Three.Euler) (settling rs ss : bool) :
  1 <= k <= 6 ->
  D6Dice.resultText displayValue
    (D6Dice.mk false (Some #k%js) settling target mesh rs ss)
  = if k =? 6 then Text "MAX ROLL!"
    else if k =? 1 then Text "MIN ROLL!"
    else match displayValue with
         | Some v => template "Rolled: " v
         | None => Text ("Rolled: " +:+ pretty k)
         end.
Proof.
  intros H.
  assert (E : k = 1 \/ k = 2 \/ k = 3 \/ k = 4 \/ k = 5 \/ k = 6) by lia.
  repeat destruct E as [->|E]; try subst k; destruct displayValue; reflexivity.
Qed.

(** X14.  The result text of the six-sided die, once it has stopped
    rolling with an outcome [k] of 1..6: "MAX ROLL!" for 6 and "MIN ROLL!"
    for 1, whatever the [displayValue] prop; for the other outcomes
    "Rolled: n" with the integer [n] of the prop (the multiplied value),
    and "Rolled: k" when the prop is null. *)
Theorem d6_result_text (s : D6Dice.state) (k n : Z) :
  1 <= k <= 6 -> 1 <= n < 2 ^ 53 ->
  D6Dice.rollValue s = Some #k%js -> D6Dice.isRolling s = false ->
  D6Dice.resultText (Some #n%js) s
  = Text (if k =? 6 then "MAX ROLL!" else if k =? 1 then "MIN ROLL!"
          else "Rolled: " +:+ pretty n)
  /\ D6Dice.resultText None s
     = Text (if k =? 6 then "MAX ROLL!" else if k =? 1 then "MIN ROLL!"
             else "Rolled: " +:+ pretty k).
Proof.
  intros Hk Hn Hv Hr. destruct s as [rolling v settling target mesh rs ss].
  cbn [D6Dice.rollValue D6Dice.isRolling] in Hv, Hr. subst rolling v.
  rewrite !d6_resultText_of by assumption.
  unfold template. rewrite (Number_toString_num n Hn).
  destruct (k =? 6); [split; reflexivity|]. destruct (k =? 1); split; reflexivity.
Qed.

Lemma d6_result_text_witness :
  D6Dice.resultText (Some #12%js)
    (D6Dice.mk false (Some #4%js) false None None true true)
  = Text "Rolled: 12".
Proof.
  exact (proj1 (d6_result_text (D6Dice.mk false (Some #4%js) false None None true true)
                  4 12 ltac:(lia) ltac:(split; [lia|reflexivity]) eq_refl eq_refl)).
Defined.

(** X15.  A roll of the six-sided die from click to overlay: on a page
    whose mounted die is a six-sided die at rest with no timer pending, a
    click followed by the firing of the timer, with a draw of [0, 1),
    leaves no timer pending, the die Settling, and the overlay with the
    outcome, an integer of 1..6, as display value and the multiplier 1. *)
Theorem d6_roll_reaches_overlay (p : Page.page) (s : D6Dice.state) (random : JS.number) :
  Page.dice p = Scene.D6 s -> D6Dice.isRolling s = false -> Page.timers p = [] ->
  unit_interval random ->
  exists k, 1 <= k <= 6 /\
    overlay (Page.app (Page.run [Page.Click; Page.TimerFires random] p))
    = (Some #k%js, #1%js) /\
    Scene.phase (Page.dice (Page.run [Page.Click; Page.TimerFires random] p)) = Settling /\
    Page.timers (Page.run [Page.Click; Page.TimerFires random] p) = [].
Proof.
  intros Hd Hr Ht Hu. destruct (d6_result_in_range random Hu) as (k & Hk & E).
  exists k. split; [assumption|].
  assert (Erun : Page.run [Page.Click; Page.TimerFires random] p
                 = Page.mk (App.handleRollComplete (D6Dice.result random) (Page.app p))
                     (Page.live p)
                     (Scene.D6 (fst (D6Dice.timeout true random (fst (D6Dice.handleClick s)))))
                     [] (Page.fresh p)).
  { cbn [Page.run fold_left]. unfold Page.step at 2. rewrite Hd, Ht.
    cbn [Scene.handleClick Scene.kind]. unfold D6Dice.handleClick. rewrite Hr.
    cbn [Page.notify fold_left Page.scheduled flat_map app].
    unfold Page.step. cbn [Page.timers Page.live Page.dice Page.app Page.fresh].
    rewrite Nat.eqb_refl. reflexivity. }
  rewrite Erun. cbn [Page.app Page.dice Page.timers]. rewrite E.
  repeat split.
Qed.

Lemma d6_roll_reaches_overlay_witness :
  exists k, 1 <= k <= 6 /\
    overlay (Page.app (Page.run [Page.Click; Page.TimerFires (JS.dec 5 10)]
                         (Page.step (Page.SelectDice d6) Page.init)))
    = (Some #k%js, #1%js).
Proof.
  destruct (d6_roll_reaches_overlay (Page.step (Page.SelectDice d6) Page.init)
              (D6Dice.mk false None false (Some (Three.euler #0%js #0%js #0%js))
                 (Some (Three.euler #0%js #0%js #0%js)) false false)
              (JS.dec 5 10) eq_refl eq_refl eq_refl unit_interval_half)
    as (k & Hk & Ho & _).
  exists k. split; [exact Hk|exact Ho].
Defined.

Lemma num_le_1 (m : Z) : 1 <= m < 2 ^ 53 -> (#m <=? #1)%js = (m <=? 1).
Proof.
  intros Hm. pose proof (num_gt_1 m Hm) as Hg.
  unfold JS.le, JS.gt, SFleb, SFltb in *. rewrite (SFcompare_swap #m%js #1%js) in Hg.
  destruct m as [|p|p]; try lia. rewrite num_canon in * by lia.
  change #1%js with (canon 1) in *. unfold canon in *. cbn [SFcompare] in *.
  destruct (Z.ltb_spec 1 (Zpos p)), (Z.leb_spec (Zpos p) 1); try lia;
    destruct (_ ?= _); try (destruct (Pos.compare_cont _ _ _)); cbn in *; congruence.
Qed.

(** X16.  The overlay's controls follow the multiplier: after a roll of
    [v] and presses of positive factors with [v] times their product below
    2^53, the reset button is enabled and the "Current: ..x" label shown
    exactly when the product is above 1; after the reset the button is
    disabled and the label hidden. *)
Theorem controls_follow_multiplier (v : Z) (fs : list Z) (s0 : App.state) :
  1 <= v -> Forall (fun f => 1 <= f) fs -> v * product fs < 2 ^ 53 ->
  let s := multiplied fs (App.handleRollComplete #v%js s0) in
  App.resetDisabled s = negb (1 <? product fs) /\
  App.multiplierDisplayed s = (1 <? product fs) /\
  App.resetDisabled (App.handleResetMultiplier s) = true /\
  App.multiplierDisplayed (App.handleResetMultiplier s) = false.
Proof.
  intros Hv Hfs Hb. cbv zeta. rewrite round_trip_exact by assumption.
  pose proof (product_pos fs Hfs) as Hp.
  unfold App.handleRollComplete.
  pose proof (multiplied_exact fs v 1 (App.selectedDice s0) Hv ltac:(lia) Hfs) as E.
  rewrite !Z.mul_1_l, Z.mul_1_r in E. rewrite E by assumption.
  unfold App.resetDisabled, App.multiplierDisplayed. cbn [App.multiplier].
  rewrite num_le_1, num_gt_1 by nia.
  repeat split. destruct (Z.ltb_spec 1 (product fs)), (Z.leb_spec (product fs) 1); cbn; lia.
Qed.

Lemma controls_follow_multiplier_witness :
  App.resetDisabled (multiplied [2; 3] (App.handleRollComplete #6%js App.init))
  = negb (1 <? product [2; 3]).
Proof.
  exact (proj1 (controls_follow_multiplier 6 [2; 3] App.init ltac:(lia)
                  ltac:(repeat constructor; lia) ltac:(vm_compute; reflexivity))).
Defined.

Lemma settle_sound_counted (currentTime : JS.number) (volume : option JS.number) :
  settle_sounds [Play D6Dice.SETTLE_SOUND_PATH currentTime volume] = 1%nat
  /\ settle_sounds [Play D6Dice.ROLL_SOUND_PATH currentTime volume] = 0%nat.
Proof. split; reflexivity. Qed.

Lemma settle_sounds_app (a b : list effect) :
  settle_sounds (a ++ b) = (settle_sounds a + settle_sounds b)%nat.
Proof. unfold settle_sounds. rewrite List.filter_app, length_app. reflexivity. Qed.

Lemma d6_step_settle (ev : d6_event) (s : D6Dice.state) :
  (settle_sounds (snd (d6_step ev s))
   + (if D6Dice.isSettling (fst (d6_step ev s)) then 1 else 0)
   <= (if D6Dice.isSettling s then 1 else 0) + completions [ev])%nat.
Proof.
  destruct s as [rolling v settling target mesh rs ss].
  destruct ev as [delta| |b random]; cbn [d6_step].
  - unfold D6Dice.useFrame.
    cbn [D6Dice.meshRef D6Dice.isRolling D6Dice.isSettling D6Dice.targetRotation].
    destruct mesh as [r|]; [|cbn; lia].
    destruct settling; [|cbn; lia].
    destruct target as [t|]; [|cbn; lia].
    destruct (D6Dice.close_enough _ t); cbn; lia.
  - unfold D6Dice.handleClick. cbn [D6Dice.isRolling D6Dice.isSettling].
    destruct rolling; cbn; lia.
  - unfold D6Dice.timeout. destruct b, settling; cbn; lia.
Qed.

(** X17.  The settle sound plays at most once per completed roll: over
    any sequence of frames, clicks and timer firings of a six-sided die,
    from any state, the settle sound is played at most as many times as
    the timer fired, plus once when the die was settling at the start; so
    without a completion in between it never plays twice, whatever the
    frame times and clicks. *)
Theorem settle_sound_at_most_once (evs : list d6_event) (s : D6Dice.state) :
  (settle_sounds (snd (d6_run evs s))
   + (if D6Dice.isSettling (fst (d6_run evs s)) then 1 else 0)
   <= (if D6Dice.isSettling s then 1 else 0) + completions evs)%nat.
Proof.
  revert s. induction evs as [|ev evs IH]; intros s; [cbn; lia|].
  cbn [d6_run]. pose proof (d6_step_settle ev s) as H1.
  destruct (d6_step ev s) as [s1 effs1]. cbn [fst snd] in H1.
  specialize (IH s1). destruct (d6_run evs s1) as [s2 effs2]. cbn [fst snd] in IH |- *.
  rewrite settle_sounds_app.
  assert (Hc : completions (ev :: evs) = (completions [ev] + completions evs)%nat).
  { unfold completions. cbn [List.filter]. destruct ev; reflexivity. }
  rewrite Hc. lia.
Qed.
